(** * linkedin-job-api: a shallow embedding of the client and its checked properties

    The development follows the layout of the Python package [linkedin]:

    - [Py]: the fragments of the Python language and standard library the
      package relies on (exceptions, [int / int], [math.ceil], [int(float)],
      [str(int)], [str.strip], slices, [range], the [re] patterns in use,
      [asyncio.gather]);
    - [models.py]: the enumerations, [JobFilter] with [to_linkedin_params],
      [Job] with its derived [id], [JobDetails];
    - [parsing.py]: [parse_job_details] over the answers of the document
      parser;
    - [resilient_async_session.py]: the retry loop of [ResilientAsyncSession];
    - [linkedin_client.py]: [fetch_jobs] and [fetch_jobs_details];
    - the rest of the code: [parse_jobs] and [_parse_job] of [parsing.py], the
      rotation of the proxies, the semaphore of the client.

    Python [int] is [Z]; Python [str] is [string], a character being a code
    point below 256; [Optional[T]] is [option T]; a [dict] is a [gmap]. *)

From Stdlib Require Import ZArith String Ascii List Bool Lia DecimalString.
From Stdlib Require Floats.SpecFloat.
From stdpp Require Import gmap strings list fin_maps.

Local Open Scope string_scope.
Local Open Scope list_scope.
Local Open Scope Z_scope.

(** * Python *)

(** ** Exceptions and results *)

Record Response := {
  status_code : Z;
  text : string
}.

(** The exceptions that occur: the built-in ones by name, and
    [curl_cffi.requests.errors.RequestsError] with its optional [response]
    ([HTTPError], which [raise_for_status] raises, is a subclass of it). *)
Inductive exn :=
| ValueError (msg : string)
| TypeError (msg : string)
| OverflowError (msg : string)
| ZeroDivisionError (msg : string)
| RequestsError (response : option Response)
| OtherError (name : string).

(** The outcome of evaluating an expression: a value or a raised exception. *)
Inductive result (A : Type) :=
| Return (a : A)
| Raise (e : exn).
Arguments Return {A} a.
Arguments Raise {A} e.

#[global] Instance result_ret : MRet result := fun A a => Return a.
#[global] Instance result_bind : MBind result := fun A B k c =>
  match c with
  | Return a => k a
  | Raise e => Raise e
  end.

Definition is_Return {A} (c : result A) : bool :=
  match c with Return _ => true | Raise _ => false end.

(** ** Numbers *)

Module Py.

(** A Python [float] is a binary64 value. *)
Definition float := SpecFloat.spec_float.

Definition float_of_int (n : Z) : float :=
  match n with
  | Z0 => SpecFloat.S754_zero false
  | Zpos p => SpecFloat.S754_finite false p 0
  | Zneg p => SpecFloat.S754_finite true p 0
  end.

(** [a / b] on two [int]s: the exact quotient rounded once to the nearest
    binary64 value (ties to even).  [SFdiv] rounds the quotient of the two
    integer mantissas, whatever their size. *)
Definition truediv (a b : Z) : result float :=
  if b =? 0 then Raise (ZeroDivisionError "division by zero")
  else
    match SpecFloat.SFdiv 53 1024 (float_of_int a) (float_of_int b) with
    | SpecFloat.S754_infinity _ | SpecFloat.S754_nan =>
        Raise (OverflowError "integer division result too large for a float")
    | q => Return q
    end.

(** [math.ceil(x)]. *)
Definition ceil (x : float) : result Z :=
  match x with
  | SpecFloat.S754_zero _ => Return 0
  | SpecFloat.S754_finite s m e =>
      let v := if s then Z.neg m else Z.pos m in
      Return (if 0 <=? e then v * 2 ^ e else - ((- v) / 2 ^ (- e)))
  | SpecFloat.S754_infinity _ =>
      Raise (OverflowError "cannot convert float infinity to integer")
  | SpecFloat.S754_nan =>
      Raise (ValueError "cannot convert float NaN to integer")
  end.

(** [int(x)] on a float: truncation toward zero. *)
Definition int_of_float (x : float) : result Z :=
  match x with
  | SpecFloat.S754_zero _ => Return 0
  | SpecFloat.S754_finite s m e =>
      let v := if s then Z.neg m else Z.pos m in
      Return (if 0 <=? e then v * 2 ^ e else Z.quot v (2 ^ (- e)))
  | SpecFloat.S754_infinity _ =>
      Raise (OverflowError "cannot convert float infinity to integer")
  | SpecFloat.S754_nan =>
      Raise (ValueError "cannot convert float NaN to integer")
  end.

(** [str(n)] on an [int]. *)
Definition str_of_int (n : Z) : string :=
  NilZero.string_of_int (Z.to_int n).

(** [range(n)]. *)
Definition range (n : Z) : list Z :=
  map Z.of_nat (seq 0 (Z.to_nat n)).

(** [l[:n]]: a negative bound counts from the end. *)
Definition slice_to {A} (l : list A) (n : Z) : list A :=
  if n <? 0 then take (length l - Z.to_nat (- n)) l
  else take (Z.to_nat n) l.

(** ** Characters and strings *)

Definition code (c : ascii) : Z := Z.of_N (N_of_ascii c).

(** [\d], and the digits [int] accepts: below code point 256 these are
    [0] to [9]. *)
Definition is_digit (c : ascii) : bool :=
  (48 <=? code c) && (code c <=? 57).

(** [str.isspace] on one character below code point 256. *)
Definition is_space (c : ascii) : bool :=
  ((9 <=? code c) && (code c <=? 13))
  || ((28 <=? code c) && (code c <=? 32))
  || (code c =? 133) || (code c =? 160).

Fixpoint lstrip (s : string) : string :=
  match s with
  | String c s' => if is_space c then lstrip s' else s
  | EmptyString => EmptyString
  end.

(** [s.rstrip()]: a character stays when it is not a space or when
    something stays after it. *)
Fixpoint rstrip (s : string) : string :=
  match s with
  | String c s' =>
      match rstrip s' with
      | EmptyString => if is_space c then EmptyString else String c EmptyString
      | t => String c t
      end
  | EmptyString => EmptyString
  end.

(** [s.strip()]. *)
Definition strip (s : string) : string := rstrip (lstrip s).

(** [sys.get_int_max_str_digits()], the default of the interpreter. *)
Definition int_max_str_digits : Z := 4300.

(** The digits at the start of [s], as [int] counts them before it
    converts. *)
Fixpoint scan_digits (s : string) : nat :=
  match s with
  | String c s' => if is_digit c then S (scan_digits s') else 0
  | EmptyString => 0
  end.

(** The loop of the conversion, once the count of digits passed the limit:
    the value that the decimal digits of [s] write after [acc]; another
    character makes [s] an invalid literal. *)
Fixpoint int_of_digits (acc : Z) (s : string) : result Z :=
  match s with
  | EmptyString => Return acc
  | String c s' =>
      if is_digit c then int_of_digits (10 * acc + (code c - 48)) s'
      else Raise (ValueError "invalid literal for int() with base 10")
  end.

(** The message of [int] on more digits than the limit allows. *)
Definition int_limit_message (digits : nat) : string :=
  "Exceeds the limit (4300 digits) for integer string conversion: value has "
  +:+ str_of_int (Z.of_nat digits)
  +:+ " digits; use sys.set_int_max_str_digits() to increase the limit".

(** [int(x)] where [x] is [None] or a [str] written with decimal digits
    only: a run of more than [int_max_str_digits] digits is refused. *)
Definition int_of_str (x : option string) : result Z :=
  match x with
  | None => Raise (TypeError "int() argument must be a string or a number")
  | Some EmptyString => Raise (ValueError "invalid literal for int() with base 10")
  | Some s =>
      if int_max_str_digits <? Z.of_nat (scan_digits s)
      then Raise (ValueError (int_limit_message (scan_digits s)))
      else int_of_digits 0 s
  end.

(** [",".join(l)]. *)
Definition join (sep : string) (l : list string) : string :=
  String.concat sep l.

End Py.

(** ** Regular expressions

    The two patterns of the package use literal characters, [\d], a
    character class, concatenation, alternation, greedy [?] and [+], one
    capturing group and [$].  [re_match] is the backtracking matcher of [re]
    for these: it takes the rest of the subject, the state of group 1 and a
    continuation, and tries the alternatives in the order [re] tries them. *)

Module re.

Inductive charset :=
| Lit (c : ascii)
| Digit
| OneOf (cs : list ascii).

Definition accepts (cs : charset) (c : ascii) : bool :=
  match cs with
  | Lit a => Ascii.eqb a c
  | Digit => Py.is_digit c
  | OneOf l => existsb (Ascii.eqb c) l
  end.

Inductive regex :=
| Chr (cs : charset)
| Cat (r1 r2 : regex)
| Alt (r1 r2 : regex)
| Opt (r : regex)
| Plus (cs : charset)
| Group (r : regex)
| Eos.

(** The part of [s] in front of its suffix [rest]. *)
Definition consumed (s rest : string) : string :=
  String.substring 0 (String.length s - String.length rest) s.

(** [$] without [re.MULTILINE]: at the end of the subject, or in front of a
    newline that ends it. *)
Definition at_end (s : string) : bool :=
  match s with
  | EmptyString => true
  | String c EmptyString => Ascii.eqb c "010"%char
  | _ => false
  end.

Section Matcher.
Context {R : Type}.

(** Greedy repetition of one character class: longest first. *)
Fixpoint star (p : ascii -> bool) (s : string) (k : string -> option R)
  : option R :=
  match s with
  | String c s' =>
      if p c then
        match star p s' k with
        | Some r => Some r
        | None => k s
        end
      else k s
  | EmptyString => k s
  end.

Definition plus (p : ascii -> bool) (s : string) (k : string -> option R)
  : option R :=
  match s with
  | String c s' => if p c then star p s' k else None
  | EmptyString => None
  end.

Fixpoint re_match (r : regex) (s : string) (g : option string)
    (k : string -> option string -> option R) : option R :=
  match r with
  | Chr cs =>
      match s with
      | String c s' => if accepts cs c then k s' g else None
      | EmptyString => None
      end
  | Cat r1 r2 => re_match r1 s g (fun s' g' => re_match r2 s' g' k)
  | Alt r1 r2 =>
      match re_match r1 s g k with
      | Some x => Some x
      | None => re_match r2 s g k
      end
  | Opt r1 =>
      match re_match r1 s g k with
      | Some x => Some x
      | None => k s g
      end
  | Plus cs => plus (accepts cs) s (fun s' => k s' g)
  | Group r1 => re_match r1 s g (fun s' _ => k s' (Some (consumed s s')))
  | Eos => if at_end s then k s g else None
  end.
End Matcher.

(** A match object, with what [group(1)] returns: [None] when the group took
    no part in the match. *)
Record Match := { group1 : option string }.

(** [re.search(r, s)]: the match at the leftmost position that has one. *)
Fixpoint search (r : regex) (s : string) : option Match :=
  match re_match r s None (fun _ g => Some {| group1 := g |}) with
  | Some m => Some m
  | None =>
      match s with
      | String _ s' => search r s'
      | EmptyString => None
      end
  end.

End re.

(** ** asyncio.gather

    [gather] awaits the tasks it is given, its children, together.  Each
    child ends with a value or an exception; [order] lists the children, by
    index, in the order in which they finish.  When a child finishes with an
    exception the call raises it at once; when the last child has finished,
    the call returns the values of all children in the order of the
    arguments.  [None] means that the caller is still waiting. *)

Module asyncio.
Section Gather.
Context {A : Type}.

(** [[fut.result() for fut in children]]. *)
Fixpoint results (children : list (result A)) : result (list A) :=
  match children with
  | [] => Return []
  | c :: cs => a ← c; l ← results cs; Return (a :: l)
  end.

Fixpoint gather_loop (children : list (result A)) (nfinished : nat)
    (order : list nat) : option (result (list A)) :=
  match order with
  | [] => None
  | i :: rest =>
      match children !! i with
      | None => gather_loop children nfinished rest
      | Some (Raise e) => Some (Raise e)
      | Some (Return _) =>
          if (S nfinished =? length children)%nat
          then Some (results children)
          else gather_loop children (S nfinished) rest
      end
  end.

Definition gather (children : list (result A)) (order : list nat)
  : option (result (list A)) :=
  match children with
  | [] => Some (Return [])
  | _ => gather_loop children 0 order
  end.
End Gather.
End asyncio.

(** * models.py *)

Module EmploymentType.
Inductive t := FULL_TIME | PART_TIME | CONTRACT | TEMPORARY | INTERNSHIP | OTHER.
Definition value (x : t) : string :=
  match x with
  | FULL_TIME => "F"
  | PART_TIME => "P"
  | CONTRACT => "C"
  | TEMPORARY => "T"
  | INTERNSHIP => "I"
  | OTHER => "O"
  end.
End EmploymentType.

Module ExperienceLevel.
Inductive t :=
    INTERNSHIP | ENTRY_LEVEL | ASSOCIATE | MID_SENIOR_LEVEL | DIRECTOR | EXECUTIVE.
Definition value (x : t) : Z :=
  match x with
  | INTERNSHIP => 1
  | ENTRY_LEVEL => 2
  | ASSOCIATE => 3
  | MID_SENIOR_LEVEL => 4
  | DIRECTOR => 5
  | EXECUTIVE => 6
  end.
End ExperienceLevel.

Module WorkMode.
Inductive t := ON_SITE | REMOTE | HYBRID.
Definition value (x : t) : Z :=
  match x with
  | ON_SITE => 1
  | REMOTE => 2
  | HYBRID => 3
  end.
End WorkMode.

(** What [_join_enum_values] needs of an [Enum]: [str(i.value)]. *)
Class Enum (E : Type) := str_value : E -> string.
#[global] Instance EmploymentType_Enum : Enum EmploymentType.t :=
  EmploymentType.value.
#[global] Instance ExperienceLevel_Enum : Enum ExperienceLevel.t :=
  fun x => Py.str_of_int (ExperienceLevel.value x).
#[global] Instance WorkMode_Enum : Enum WorkMode.t :=
  fun x => Py.str_of_int (WorkMode.value x).

(** [datetime.timedelta], as it stores a duration. *)
Record timedelta := {
  days : Z;
  seconds : Z;
  microseconds : Z
}.

(** The ranges [timedelta] keeps its three fields in. *)
Definition timedelta_in_range (d : timedelta) : Prop :=
  -999999999 <= days d <= 999999999
  /\ 0 <= seconds d < 86400
  /\ 0 <= microseconds d < 1000000.

(** [timedelta.total_seconds()]. *)
Definition total_seconds (d : timedelta) : result Py.float :=
  Py.truediv ((days d * 86400 + seconds d) * 10 ^ 6 + microseconds d) (10 ^ 6).

Record JobFilter := {
  title : option string;
  location : string;
  employment_types : option (list EmploymentType.t);
  experience_levels : option (list ExperienceLevel.t);
  work_modes : option (list WorkMode.t);
  few_applicants : option bool;
  age : option timedelta
}.

(** The field defaults of the dataclass: [JobFilter()]. *)
Definition JobFilter_default : JobFilter := {|
  title := None;
  location := "United States";
  employment_types := None;
  experience_levels := None;
  work_modes := None;
  few_applicants := None;
  age := None
|}.

Definition _join_enum_values {E} `{Enum E} (sequence : list E) : string :=
  Py.join "," (map str_value sequence).

Definition to_linkedin_params (self : JobFilter) : result (gmap string string) :=
  let params : gmap string string := ∅ in
  let params :=
    match title self with
    | Some t => <["keywords" := t]> params
    | None => params
    end in
  let params := <["location" := location self]> params in
  let params :=
    match employment_types self with
    | Some l => <["f_JT" := _join_enum_values l]> params
    | None => params
    end in
  let params :=
    match experience_levels self with
    | Some l => <["f_E" := _join_enum_values l]> params
    | None => params
    end in
  let params :=
    match work_modes self with
    | Some l => <["f_WT" := _join_enum_values l]> params
    | None => params
    end in
  let params :=
    match few_applicants self with
    | Some true => <["f_JIYN" := "true"]> params
    | _ => params
    end in
  match age self with
  | Some a =>
      secs ← total_seconds a ≫= Py.int_of_float;
      Return (<["f_TPR" := "r" +:+ Py.str_of_int secs]> params)
  | None => Return params
  end.

(** The pattern of [Job.id]: [-?(\d+)(?:[/?]|$)]. *)
Definition job_id_pattern : re.regex :=
  re.Cat (re.Opt (re.Chr (re.Lit "-")))
    (re.Cat (re.Group (re.Plus re.Digit))
       (re.Alt (re.Chr (re.OneOf ["/"%char; "?"%char])) re.Eos)).

Module Job.
(** [posted_at] is a [datetime.date]: year, month and day. *)
Record t := {
  url : string;
  title : string;
  location : string;
  company_title : string;
  company_url : string;
  posted_at : Z * Z * Z
}.

(** The property [id]; it returns [match.group(1)]. *)
Definition id (self : t) : result (option string) :=
  match re.search job_id_pattern (url self) with
  | Some m => Return (re.group1 m)
  | None => Raise (ValueError ("Could not parse job ID from URL: " +:+ url self))
  end.
End Job.

Record JobDetails := {
  description : string;
  employment_type : EmploymentType.t;
  experience_level : option ExperienceLevel.t;
  applicant_count : Z
}.

(** * parsing.py *)

Definition STR_TO_EXPERIENCE_LEVEL_MAP : gmap string ExperienceLevel.t :=
  list_to_map [
    ("Internship", ExperienceLevel.INTERNSHIP);
    ("Entry level", ExperienceLevel.ENTRY_LEVEL);
    ("Associate", ExperienceLevel.ASSOCIATE);
    ("Mid-Senior level", ExperienceLevel.MID_SENIOR_LEVEL);
    ("Director", ExperienceLevel.DIRECTOR);
    ("Executive", ExperienceLevel.EXECUTIVE)
  ].

Definition STR_TO_EMPLOYMENT_TYPE_MAP : gmap string EmploymentType.t :=
  list_to_map [
    ("Full-time", EmploymentType.FULL_TIME);
    ("Part-time", EmploymentType.PART_TIME);
    ("Contract", EmploymentType.CONTRACT);
    ("Temporary", EmploymentType.TEMPORARY);
    ("Internship", EmploymentType.INTERNSHIP);
    ("Other", EmploymentType.OTHER)
  ].

(** The answers of the document parser on a detail page.

    An element of [html.find_all("li", class_=job-criteria-item)] is a [Tag]
    or not; for a [Tag], [key_element] and [value_element] are what
    [getText(strip=True)] gives on the [h3] and [span] that [item.find]
    returns, [None] when [find] returns nothing. *)
Inductive criteria_item :=
| NotATag
| Tag (key_element value_element : option string).

Record Soup := {
  (* [decode_contents()] of [html.find("div", class_=markup)], when that is
     a [Tag] *)
  find_markup : option string;
  find_all_criteria : list criteria_item;
  (* [getText()] of [html.find(class_=num-applicants)], when that is a
     [Tag] *)
  find_num_applicants : option string
}.

(** The pattern of the applicant count: [(\d+)]. *)
Definition applicant_count_pattern : re.regex :=
  re.Group (re.Plus re.Digit).

(** The loop over [criterias]: the two variables it assigns are its state. *)
Fixpoint criteria_loop (criterias : list criteria_item)
    (employment_type : option EmploymentType.t)
    (experience_level : option ExperienceLevel.t)
  : result (option EmploymentType.t * option ExperienceLevel.t) :=
  match criterias with
  | [] => Return (employment_type, experience_level)
  | NotATag :: _ =>
      Raise (ValueError "Could not find employment type or experience level")
  | Tag (Some key) (Some value) :: rest =>
      let employment_type :=
        if String.eqb key "Employment type"
        then STR_TO_EMPLOYMENT_TYPE_MAP !! value
        else employment_type in
      let experience_level :=
        if String.eqb key "Seniority level"
        then STR_TO_EXPERIENCE_LEVEL_MAP !! value
        else experience_level in
      criteria_loop rest employment_type experience_level
  | Tag _ _ :: _ =>
      Raise (ValueError "Could not parse employment type or experience level")
  end.

(** The block [# Description] of [parse_job_details]. *)
Definition description_block (html : Soup) : result string :=
  match find_markup html with
  | None => Raise (ValueError "Could not find job description")
  | Some contents =>
      match Py.strip contents with
      | EmptyString => Raise (ValueError "Could not parse job description")
      | d => Return d
      end
  end.

(** The block [# Applicant count] of [parse_job_details]. *)
Definition applicant_count_block (html : Soup) : result Z :=
  match find_num_applicants html with
  | None => Raise (ValueError "Could not find applicant count")
  | Some txt =>
      match re.search applicant_count_pattern txt with
      | None => Raise (ValueError "Could not parse applicant count")
      | Some m => Py.int_of_str (re.group1 m)
      end
  end.

Section Parsing.
(** [BeautifulSoup(raw, "lxml")] *)
Variable BeautifulSoup : string -> Soup.

Definition parse_job_details (raw : string) : result JobDetails :=
  let html := BeautifulSoup raw in
  description ← description_block html;
  (* Employment type and experience level *)
  '(employment_type, experience_level) ←
    criteria_loop (find_all_criteria html) None None;
  employment_type ←
    match employment_type with
    | None => Raise (ValueError "Could not parse employment type")
    | Some t => Return t
    end;
  applicant_count ← applicant_count_block html;
  Return {|
    description := description;
    employment_type := employment_type;
    experience_level := experience_level;
    applicant_count := applicant_count
  |}.
End Parsing.

(** * resilient_async_session.py *)

Definition RETRY_COUNT : nat := 3.

(** [itertools.cycle] over a sequence that is not empty. *)
Record cycle := {
  cycle_items : list string;
  cycle_pos : nat
}.

Definition next (c : cycle) : string * cycle :=
  (default "" (cycle_items c !! (cycle_pos c mod length (cycle_items c))%nat),
   {| cycle_items := cycle_items c; cycle_pos := S (cycle_pos c) |}).

Record ResilientAsyncSession := {
  _proxy_cycle : cycle
}.

(** [__init__]: [cycle(proxies) if proxies else cycle([""])]. *)
Definition ResilientAsyncSession_init (proxies : option (list string))
  : ResilientAsyncSession :=
  match proxies with
  | Some (p :: ps) =>
      {| _proxy_cycle := {| cycle_items := p :: ps; cycle_pos := 0 |} |}
  | _ => {| _proxy_cycle := {| cycle_items := [""]; cycle_pos := 0 |} |}
  end.

Definition _should_retry_request (err : exn) (retry : nat) : bool :=
  if (RETRY_COUNT <=? retry)%nat then false
  else
    match err with
    | RequestsError None => true
    | RequestsError (Some response) =>
        (status_code response =? 429) || (500 <=? status_code response)
    | _ => false
    end.

(** What a call of [request] does that can be observed: the attempts, each
    with the proxy it passes on, and the sleeps. *)
Inductive event :=
| Attempt (retry : nat) (proxy : option string)
| Sleep (delay : Z).

Section Executor.
(** [Response.ok], which [raise_for_status] tests *)
Variable ok : Z -> bool.
(** The outcome of [super().request] in the attempt with the given number:
    a response or an exception *)
Variable transport : nat -> result Response.

Definition raise_for_status (response : Response) : result unit :=
  if ok (status_code response) then Return tt
  else Raise (RequestsError (Some response)).

(** The [try] block of one attempt. *)
Definition attempt (retry : nat) : result Response :=
  response ← transport retry;
  raise_for_status response;;
  Return response.

(** The [for] loop of [request] over the attempt numbers left; [proxy] is
    [kwargs["proxy"]], when that key is set.  The loop returns the
    response, raises, or ends, and then the function returns [None]. *)
Fixpoint request_loop (retries : list nat) (self : ResilientAsyncSession)
    (proxy : option string)
  : ResilientAsyncSession * list event * result (option Response) :=
  match retries with
  | [] => (self, [], Return None)
  | retry :: rest =>
      let '(p, c) := next (_proxy_cycle self) in
      let self := {| _proxy_cycle := c |} in
      let proxy := if String.eqb p "" then proxy else Some p in
      match attempt retry with
      | Return response => (self, [Attempt retry proxy], Return (Some response))
      | Raise (RequestsError r as err) =>
          if _should_retry_request err retry then
            let '(self', events, res) := request_loop rest self proxy in
            (self', Attempt retry proxy :: Sleep (2 ^ Z.of_nat retry) :: events, res)
          else (self, [Attempt retry proxy], Raise err)
      | Raise err => (self, [Attempt retry proxy], Raise err)
      end
  end.

Definition request (self : ResilientAsyncSession) (proxy : option string)
  : ResilientAsyncSession * list event * result (option Response) :=
  request_loop (seq 0 (RETRY_COUNT + 1)) self proxy.
End Executor.

(** * linkedin_client.py *)

Definition LINKEDIN_PAGE_SIZE : Z := 10.
Definition LINKEDIN_JOB_QUERY_LIMIT : Z := 1000.

(** A value of the [params] dictionary of a request. *)
Inductive param :=
| PStr (s : string)
| PInt (n : Z).

(** What a public operation of the client does: the tasks it creates, by the
    arguments of their coroutines, and what the caller gets, [None] while it
    is still waiting. *)
Record run (T A : Type) := {
  created : list T;
  outcome : option (result A)
}.
Arguments created {T A} r.
Arguments outcome {T A} r.

(** An argument with a default value in a call. *)
Inductive arg (A : Type) :=
| Omitted
| Passed (a : A).
Arguments Omitted {A}.
Arguments Passed {A} a.

Definition arg_value {A} (dflt : A) (a : arg A) : A :=
  match a with
  | Omitted => dflt
  | Passed x => x
  end.

Section Client.
(** [self._session.get(url, params)] as awaited by the task with the given
    index among the tasks of one operation: the response or the exception
    the session ends with.  The semaphore around the call bounds how many
    such calls are in flight; it does not change what a task ends with. *)
Variable session_get :
  nat -> string -> option (gmap string param) -> result Response.
(** [parsing.parse_jobs]: the summaries of a listing page, or the exception
    of the first one that does not parse. *)
Variable parse_jobs : string -> result (list Job.t).
(** [BeautifulSoup(raw, "lxml")] *)
Variable BeautifulSoup : string -> Soup.

Definition _fetch_jobs_page (task : nat) (filter : JobFilter) (offset : Z)
  : result (list Job.t) :=
  params ← to_linkedin_params filter;
  response ←
    session_get task
      "https://www.linkedin.com/jobs-guest/jobs/api/seeMoreJobPostings/search"
      (Some (<["start" := PInt offset]> (PStr <$> params)));
  parse_jobs (text response).

Definition _fetch_job_details (task : nat) (id : string) : result JobDetails :=
  response ←
    session_get task
      ("https://www.linkedin.com/jobs-guest/jobs/api/jobPosting/" +:+ id)
      None;
  parse_job_details BeautifulSoup (text response).

(** [order] is the order in which the page tasks finish. *)
Definition fetch_jobs (filter : JobFilter) (offset : Z) (limit : option Z)
    (order : list nat) : run (JobFilter * Z) (list Job.t) :=
  let limit :=
    match limit with
    | None => LINKEDIN_JOB_QUERY_LIMIT - offset
    | Some l => l
    end in
  if (offset <? 0) || (limit <? 0) then
    {| created := [];
       outcome := Some (Raise (ValueError "Offset and limit must be non-negative")) |}
  else if LINKEDIN_JOB_QUERY_LIMIT <? offset + limit then
    {| created := [];
       outcome := Some (Raise (ValueError "LinkedIn only allows fetching up to 1000 jobs")) |}
  else
    match Py.truediv limit LINKEDIN_PAGE_SIZE ≫= Py.ceil with
    | Raise e => {| created := []; outcome := Some (Raise e) |}
    | Return total_pages =>
        let starts :=
          map (fun i => offset + i * LINKEDIN_PAGE_SIZE) (Py.range total_pages) in
        let tasks := imap (fun i start => _fetch_jobs_page i filter start) starts in
        {| created := map (fun start => (filter, start)) starts;
           outcome :=
             match asyncio.gather tasks order with
             | None => None
             | Some gathered =>
                 Some (results ← gathered;
                       let jobs := concat results in
                       Return (Py.slice_to jobs limit))
             end |}
    end.

(** A call of [fetch_jobs]: an omitted argument takes the default of the
    signature, [offset: int = 0] and
    [limit: Optional[int] = LINKEDIN_PAGE_SIZE]. *)
Definition call_fetch_jobs (filter : JobFilter) (offset : arg Z)
    (limit : arg (option Z)) (order : list nat) : run (JobFilter * Z) (list Job.t) :=
  fetch_jobs filter (arg_value 0 offset)
    (arg_value (Some LINKEDIN_PAGE_SIZE) limit) order.

Definition fetch_job_details (id : string) : result JobDetails :=
  _fetch_job_details 0 id.

Definition fetch_jobs_details (ids : list string) (order : list nat)
  : run string (list JobDetails) :=
  let tasks := imap (fun i id => _fetch_job_details i id) ids in
  {| created := ids; outcome := asyncio.gather tasks order |}.
End Client.

(** * Vocabulary of the statements *)

(** The exception of the child that is the first to finish with one. *)
Fixpoint first_failure {A} (children : list (result A)) (order : list nat)
  : option exn :=
    match order with
    | [] => None
    | i :: rest =>
        match children !! i with
        | Some (Raise e) => Some e
        | _ => first_failure children rest
        end
    end.

(** The least [k] with [n <= k * d], for [0 < d]: what the text writes
    [ceil(n / d)]. *)
Definition ceiling_div (n d : Z) : Z := (n + d - 1) / d.

(** [math.ceil(limit / LINKEDIN_PAGE_SIZE)] is that ceiling. *)
Definition total_pages_check (limit : nat) : bool :=
  match Py.truediv (Z.of_nat limit) LINKEDIN_PAGE_SIZE ≫= Py.ceil with
  | Return k => k =? ceiling_div (Z.of_nat limit) LINKEDIN_PAGE_SIZE
  | Raise _ => false
  end.

(** The attempt numbers and the delays among the events of a call. *)
Definition attempts_of (events : list event) : list nat :=
  omap (fun e => match e with Attempt retry _ => Some retry | Sleep _ => None end)
    events.

Definition sleeps_of (events : list event) : list Z :=
  omap (fun e => match e with Sleep d => Some d | Attempt _ _ => None end)
    events.

Definition forget_proxy (e : event) : event :=
  match e with
  | Attempt retry _ => Attempt retry None
  | Sleep d => Sleep d
  end.

(** Attempt [first], and [more] times a sleep of [2^attempt] followed by the
    next attempt: no sleep comes last. *)
Fixpoint backoff_schedule (first more : nat) : list event :=
  match more with
  | O => [Attempt first None]
  | S m =>
      Attempt first None :: Sleep (2 ^ Z.of_nat first)
        :: backoff_schedule (S first) m
  end.

(** A failure that is retried while attempts remain: a [RequestsError]
    without a response, or with one of status 429 or at least 500. *)
Definition retryable (err : exn) : bool :=
  match err with
  | RequestsError None => true
  | RequestsError (Some response) =>
      (status_code response =? 429) || (500 <=? status_code response)
  | _ => false
  end.

(** What [request] gives its caller when an attempt ends the loop. *)
Definition ended_by (c : result Response) : result (option Response) :=
  response ← c; Return (Some response).

(** A criteria entry is parseable when it is a [Tag] with the key and the
    value element. *)
Definition parseable (item : criteria_item) : bool :=
  match item with
  | Tag (Some _) (Some _) => true
  | _ => false
  end.

(** The values, in document order, of the entries with the given key. *)
Definition values_of (key : string) (criterias : list criteria_item)
  : list string :=
  omap (fun item =>
          match item with
          | Tag (Some k) (Some v) => if String.eqb k key then Some v else None
          | _ => None
          end) criterias.

(** A detail page with two entries for the employment type, the first with
    a mapped value and the second with an unmapped one. *)
Definition two_employment_types : Soup := {|
  find_markup := Some "<p>We are hiring.</p>";
  find_all_criteria := [
    Tag (Some "Seniority level") (Some "Entry level");
    Tag (Some "Employment type") (Some "Full-time");
    Tag (Some "Employment type") (Some "Volunteer")
  ];
  find_num_applicants := Some "Be among the first 25 applicants"
|}.

(** A detail page whose seniority level has no mapped value. *)
Definition unknown_seniority : Soup := {|
  find_markup := Some "<p>We are hiring.</p>";
  find_all_criteria := [
    Tag (Some "Seniority level") (Some "Not Applicable");
    Tag (Some "Employment type") (Some "Contract")
  ];
  find_num_applicants := Some "Over 200 applicants"
|}.

(** What [Job.id] computes, read off the pattern: the first run of digits
    that a [/] or a [?] follows or that ends the url. *)

Fixpoint all_digits (s : string) : bool :=
  match s with
  | String c s' => Py.is_digit c && all_digits s'
  | EmptyString => true
  end.

(** The longest run of digits at the head of [s], and what follows it. *)
Fixpoint digits_prefix (s : string) : string :=
  match s with
  | String c s' => if Py.is_digit c then String c (digits_prefix s') else EmptyString
  | EmptyString => EmptyString
  end.

Fixpoint after_digits (s : string) : string :=
  match s with
  | String c s' => if Py.is_digit c then after_digits s' else s
  | EmptyString => EmptyString
  end.

(** [(?:[/?]|$)] holds in front of [rest]. *)
Definition terminator (rest : string) : bool :=
  match rest with
  | String c _ =>
      re.accepts (re.OneOf ["/"%char; "?"%char]) c || re.at_end rest
  | EmptyString => true
  end.

(** [(\d+)(?:[/?]|$)] at the head of [s]. *)
Definition id_here (s : string) : option string :=
  match digits_prefix s with
  | EmptyString => None
  | ds => if terminator (after_digits s) then Some ds else None
  end.

(** The whole pattern at the head of [s]. *)
Definition id_at (s : string) : option string :=
  match s with
  | String c s' => if Ascii.eqb "-" c then id_here s' else id_here s
  | EmptyString => None
  end.

(** The pattern at the leftmost position where it matches. *)
Fixpoint find_id (s : string) : option string :=
  match id_at s with
  | Some ds => Some ds
  | None =>
      match s with
      | String _ s' => find_id s'
      | EmptyString => None
      end
  end.

(** Some digit of [s] stands in front of a terminator. *)
Fixpoint terminated_digit (s : string) : bool :=
  match s with
  | String c s' => (Py.is_digit c && terminator s') || terminated_digit s'
  | EmptyString => false
  end.

(** A url ends in the numeric suffix [digits] when it is [pre], the digits
    and a [tail] that is empty or starts with [/] or [?], and [pre] does not
    end in a digit. *)
Fixpoint ends_digit (s : string) : bool :=
  match s with
  | String c EmptyString => Py.is_digit c
  | String _ s' => ends_digit s'
  | EmptyString => false
  end.

Definition suffix_tail (tail : string) : bool :=
  match tail with
  | String c _ => Ascii.eqb c "/" || Ascii.eqb c "?"
  | EmptyString => true
  end.

Definition job_of_url (u : string) : Job.t := {|
  Job.url := u;
  Job.title := "Software Engineer";
  Job.location := "Berlin";
  Job.company_title := "Example";
  Job.company_url := "https://www.linkedin.com/company/example";
  Job.posted_at := (2024, 5, 17)
|}.

(** ** Examples *)

(** A network that answers every request with status 200 and the url of the
    request as body, and a listing parser that finds ten jobs on a page. *)
Definition echo_session_get (task : nat) (u : string)
    (params : option (gmap string param)) : result Response :=
  Return {| status_code := 200; text := u |}.

Definition ten_jobs (raw : string) : result (list Job.t) :=
  Return (replicate 10 (job_of_url raw)).

(** A network that answers the request of a page with status 200 and the
    [start] of the request as body, and fails on another request. *)
Definition start_session_get (task : nat) (u : string)
    (params : option (gmap string param)) : result Response :=
  match params ≫= (fun p => p !! "start") with
  | Some (PInt start) =>
      Return {| status_code := 200; text := Py.str_of_int start |}
  | _ => Raise (RequestsError None)
  end.

Definition search_url : string :=
  "https://www.linkedin.com/jobs-guest/jobs/api/seeMoreJobPostings/search".

(** A document parser that knows the detail page of job 1, with an unknown
    seniority, and gives the page with two employment types for every other
    job. *)
Definition detail_soup (raw : string) : Soup :=
  if String.eqb raw "https://www.linkedin.com/jobs-guest/jobs/api/jobPosting/1"
  then unknown_seniority
  else two_employment_types.

(** [Response.ok] of curl_cffi, which [raise_for_status] tests:
    [200 <= status_code < 400]. *)
Definition curl_cffi_ok (status : Z) : bool :=
  (200 <=? status) && (status <? 400).

Definition not_found : Response := {| status_code := 404; text := "" |}.
Definition unavailable : Response := {| status_code := 503; text := "" |}.
Definition success : Response := {| status_code := 200; text := "<li></li>" |}.

Definition always_404 (retry : nat) : result Response := Return not_found.


Definition three_503_then_200 (retry : nat) : result Response :=
  if (retry <? 3)%nat then Return unavailable else Return success.

Definition no_proxies : ResilientAsyncSession := ResilientAsyncSession_init None.

(** A filter with [few_applicants=False]. *)
Definition many_applicants : JobFilter := {|
  title := None;
  location := "United States";
  employment_types := None;
  experience_levels := None;
  work_modes := None;
  few_applicants := Some false;
  age := None
|}.

(** A filter with every field set. *)
Definition full_filter : JobFilter := {|
  title := Some "engineer";
  location := "Berlin";
  employment_types := Some [EmploymentType.FULL_TIME; EmploymentType.CONTRACT];
  experience_levels := Some [ExperienceLevel.ASSOCIATE];
  work_modes := Some [WorkMode.REMOTE; WorkMode.HYBRID];
  few_applicants := Some true;
  age := Some {| days := 1; seconds := 5; microseconds := 999999 |}
|}.

(** A url of the shape the site uses, and one with a number in its path. *)
Definition view_url : string :=
  "https://www.linkedin.com/jobs/view/software-engineer-2-at-foo-4012345678?position=1&pageNum=0".

Definition dated_url : string :=
  "https://www.linkedin.com/jobs/view/2024/engineer-4012345678".

(** * The rest of the code *)

(** ** Listing pages *)

(** The answers of the document parser on one [li] of a listing page. *)
Record li_tag := {
  (* [html.find("a", class_=_full-link)], when that is a [Tag], with
     [element.get("href")], when that is a [str] *)
  find_full_link : option (option string);
  (* [getText(strip=True)] of [html.find("h3", class_=_title)] *)
  find_title : option string;
  (* [getText(strip=True)] of [html.find("span", class_=_location)] *)
  find_location : option string;
  (* [html.find("h4", class_=_subtitle)], when that is a [Tag], with
     [element.find("a")] in it, when that is a [Tag]: its
     [getText(strip=True)] and its [href], when that is a [str] *)
  find_subtitle : option (option (string * option string));
  (* [html.find("time", class_=listdate)], when that is a [Tag], with
     [element.get("datetime")], when that is a [str] *)
  find_listdate : option (option string)
}.

(** An element of [html.find_all("li")]: a [Tag] or not, then with its
    [str]. *)
Inductive li_element :=
| NotALi (shown : string)
| Li (tag : li_tag).

Section Listing.
(** [BeautifulSoup(raw, "lxml").find_all("li")] *)
Variable find_all_li : string -> list li_element.
(** [datetime.datetime.strptime(dt, "%Y-%m-%d").date()]: the date as year,
    month and day, or the exception of [strptime] *)
Variable strptime : string -> result (Z * Z * Z).

Definition _parse_job (html : li_tag) : result Job.t :=
  (* URL *)
  url ←
    match find_full_link html with
    | None => Raise (ValueError "Could not find job URL")
    | Some None => Raise (ValueError "Could not parse job URL")
    | Some (Some href) => Return href
    end;
  (* Title *)
  title ←
    match find_title html with
    | None => Raise (ValueError "Could not find job title")
    | Some EmptyString => Raise (ValueError "Could not parse job title")
    | Some t => Return t
    end;
  (* Location *)
  location ←
    match find_location html with
    | None => Raise (ValueError "Could not find job location")
    | Some EmptyString => Raise (ValueError "Could not parse job location")
    | Some l => Return l
    end;
  (* Company title *)
  '(company_title, href) ←
    match find_subtitle html with
    | None | Some None => Raise (ValueError "Could not find company title")
    | Some (Some (EmptyString, _)) =>
        Raise (ValueError "Could not parse company title")
    | Some (Some (t, href)) => Return (t, href)
    end;
  (* Company URL *)
  company_url ←
    match href with
    | None => Raise (ValueError "Could not parse company URL")
    | Some h => Return h
    end;
  (* Posted at *)
  posted_at ←
    match find_listdate html with
    | None => Raise (ValueError "Could not find job age")
    | Some None => Raise (ValueError "Could not parse job age")
    | Some (Some dt) => strptime dt
    end;
  Return {|
    Job.url := url;
    Job.title := title;
    Job.location := location;
    Job.company_title := company_title;
    Job.company_url := company_url;
    Job.posted_at := posted_at
  |}.

(** The loop of [parse_jobs]; [jobs] is the list it appends to. *)
Fixpoint parse_jobs_loop (elements : list li_element) (jobs : list Job.t)
  : result (list Job.t) :=
  match elements with
  | [] => Return jobs
  | NotALi shown :: _ => Raise (ValueError ("Could not parse job: " +:+ shown))
  | Li tag :: rest =>
      job ← _parse_job tag;
      parse_jobs_loop rest (jobs ++ [job])
  end.

Definition parse_jobs (raw : string) : result (list Job.t) :=
  parse_jobs_loop (find_all_li raw) [].
End Listing.

(** The messages of [_parse_job], in the order of its checks. *)
Definition _parse_job_messages : list string := [
  "Could not find job URL"; "Could not parse job URL";
  "Could not find job title"; "Could not parse job title";
  "Could not find job location"; "Could not parse job location";
  "Could not find company title"; "Could not parse company title";
  "Could not parse company URL";
  "Could not find job age"; "Could not parse job age"
].

(** The [li] that shows a job, with [dt] as the text of its date. *)
Definition li_of_job (job : Job.t) (dt : string) : li_tag := {|
  find_full_link := Some (Some (Job.url job));
  find_title := Some (Job.title job);
  find_location := Some (Job.location job);
  find_subtitle := Some (Some (Job.company_title job, Some (Job.company_url job)));
  find_listdate := Some (Some dt)
|}.

(** The messages of [parse_job_details]. *)
Definition parse_job_details_messages : list string := [
  "Could not find job description"; "Could not parse job description";
  "Could not find employment type or experience level";
  "Could not parse employment type or experience level";
  "Could not parse employment type";
  "Could not find applicant count"; "Could not parse applicant count"
].

Fixpoint all_space (s : string) : bool :=
  match s with
  | String c s' => Py.is_space c && all_space s'
  | EmptyString => true
  end.

Definition starts_with_space (s : string) : bool :=
  match s with
  | String c _ => Py.is_space c
  | EmptyString => false
  end.

Fixpoint ends_with_space (s : string) : bool :=
  match s with
  | String c EmptyString => Py.is_space c
  | String _ s' => ends_with_space s'
  | EmptyString => false
  end.

Fixpoint has_digit (s : string) : bool :=
  match s with
  | String c s' => Py.is_digit c || has_digit s'
  | EmptyString => false
  end.

(** The first run of digits of [s]. *)
Fixpoint first_digits (s : string) : option string :=
  match s with
  | String c s' => if Py.is_digit c then Some (digits_prefix s) else first_digits s'
  | EmptyString => None
  end.

(** The proxies passed on in the attempts of a call. *)
Definition proxies_of (events : list event) : list (option string) :=
  omap (fun e => match e with Attempt _ p => Some p | Sleep _ => None end)
    events.

(** What the cycle yields at its [k]th draw from now. *)
Definition rotation (c : cycle) (k : nat) : string :=
  default ""
    (cycle_items c !! ((cycle_pos c + k) mod length (cycle_items c))%nat).

(** ** The semaphore of the client

    [_fetch_jobs_page] and [_fetch_job_details] await [self._session.get]
    inside [async with self._semaphore]: [__aenter__] awaits [acquire], and
    [__aexit__] calls [release] whether [get] returned or raised.  The
    semaphore is the one of [asyncio] in Python 3.11.  A task has not started
    yet, waits in [acquire], is inside the block with its call of [get] in
    flight, or is behind the block. *)
Inductive place :=
| Before
| Waiting
| Inside
| After (raised : bool).

(** [asyncio.Semaphore]: its value and the futures of its waiters in the
    order of the deque, each with the task that awaits it and whether it is
    done.  No task is cancelled. *)
Record Semaphore := {
  _value : Z;
  _waiters : list (nat * bool)
}.

Definition Semaphore_init (value : Z) : result Semaphore :=
  if value <? 0 then Raise (ValueError "Semaphore initial value must be >= 0")
  else Return {| _value := value; _waiters := [] |}.

(** [locked]: the value is 0 or a waiter is there. *)
Definition locked (self : Semaphore) : bool :=
  (_value self =? 0)
  || match _waiters self with
     | [] => false
     | _ :: _ => true
     end.

(** The loop of [_wake_up_next]: the first future that is not done gets its
    result. *)
Fixpoint wake_first (waiters : list (nat * bool)) : option (list (nat * bool)) :=
  match waiters with
  | [] => None
  | (task, true) :: rest => cons (task, true) <$> wake_first rest
  | (task, false) :: rest => Some ((task, true) :: rest)
  end.

Definition _wake_up_next (self : Semaphore) : Semaphore :=
  match wake_first (_waiters self) with
  | Some waiters => {| _value := _value self - 1; _waiters := waiters |}
  | None => self
  end.

Definition release (self : Semaphore) : Semaphore :=
  _wake_up_next {| _value := _value self + 1; _waiters := _waiters self |}.

(** [acquire] up to its [await]: the permit is taken at once, or the task
    appends its future and waits. *)
Definition acquire_enter (task : nat) (self : Semaphore) : bool * Semaphore :=
  if locked self then
    (false, {| _value := _value self;
               _waiters := _waiters self ++ [(task, false)] |})
  else (true, {| _value := _value self - 1; _waiters := _waiters self |}).

(** The future of a task among the waiters: whether it is done. *)
Fixpoint waiter_done (task : nat) (waiters : list (nat * bool)) : option bool :=
  match waiters with
  | [] => None
  | (t, done) :: rest => if (t =? task)%nat then Some done else waiter_done task rest
  end.

(** [self._waiters.remove(fut)] for the future of a task. *)
Fixpoint remove_waiter (task : nat) (waiters : list (nat * bool))
  : list (nat * bool) :=
  match waiters with
  | [] => []
  | (t, done) :: rest =>
      if (t =? task)%nat then rest else (t, done) :: remove_waiter task rest
  end.

(** [acquire] from its [await] on, once its future is done. *)
Definition acquire_resume (task : nat) (self : Semaphore) : Semaphore :=
  let self := {| _value := _value self;
                 _waiters := remove_waiter task (_waiters self) |} in
  if 0 <? _value self then _wake_up_next self else self.

(** The client with its tasks: the semaphore, which [__init__] makes with
    the value [max_concurrent_requests], and where each task stands. *)
Record LinkedInClient := {
  _semaphore : Semaphore;
  places : list place
}.

Definition LinkedInClient_init (max_concurrent_requests : Z)
  : result LinkedInClient :=
  semaphore ← Semaphore_init max_concurrent_requests;
  Return {| _semaphore := semaphore; places := [] |}.

(** What the event loop does next: a task is created; the task [i] starts
    and runs up to the [await] in [acquire] or, with a permit, up to the one
    in [get]; the task [i], whose future in [acquire] is done, goes on up to
    the [await] in [get]; [get] ends in the task [i], which leaves the
    block. *)
Inductive loop_event :=
| Create
| Start (i : nat)
| Resume (i : nat)
| Leave (i : nat) (raised : bool).

(** An event that cannot take place leaves the client as it is. *)
Definition loop_step (c : LinkedInClient) (ev : loop_event) : LinkedInClient :=
  match ev with
  | Create => {| _semaphore := _semaphore c; places := places c ++ [Before] |}
  | Start i =>
      match places c !! i with
      | Some Before =>
          let '(taken, semaphore) := acquire_enter i (_semaphore c) in
          {| _semaphore := semaphore;
             places := <[i := if taken then Inside else Waiting]> (places c) |}
      | _ => c
      end
  | Resume i =>
      match places c !! i, waiter_done i (_waiters (_semaphore c)) with
      | Some Waiting, Some true =>
          {| _semaphore := acquire_resume i (_semaphore c);
             places := <[i := Inside]> (places c) |}
      | _, _ => c
      end
  | Leave i raised =>
      match places c !! i with
      | Some Inside =>
          {| _semaphore := release (_semaphore c);
             places := <[i := After raised]> (places c) |}
      | _ => c
      end
  end.

Definition loop_run (c : LinkedInClient) (events : list loop_event)
  : LinkedInClient :=
  foldl loop_step c events.

(** The number of tasks inside the block: of calls of [get] in flight. *)
Fixpoint in_flight (ps : list place) : nat :=
  match ps with
  | [] => 0
  | Inside :: rest => S (in_flight rest)
  | _ :: rest => in_flight rest
  end.

(** The number of waiters that hold a permit and have not gone on yet. *)
Fixpoint woken (waiters : list (nat * bool)) : nat :=
  match waiters with
  | [] => 0
  | (_, true) :: rest => S (woken rest)
  | (_, false) :: rest => woken rest
  end.

(** What the client keeps at every step: the value is not negative; the
    permits are the value, the calls in flight and the waiters that were
    woken; a positive value with nobody woken means that nobody waits. *)
Definition semaphore_invariant (limit : Z) (c : LinkedInClient) : Prop :=
  0 <= _value (_semaphore c)
  /\ _value (_semaphore c) + Z.of_nat (in_flight (places c))
     + Z.of_nat (woken (_waiters (_semaphore c))) = limit
  /\ (0 < _value (_semaphore c) -> woken (_waiters (_semaphore c)) = 0%nat ->
      _waiters (_semaphore c) = []).

(** ** More examples *)

(** A stand-in for [strptime] that knows one date. *)
Definition strptime_0517 (dt : string) : result (Z * Z * Z) :=
  if String.eqb dt "2024-05-17" then Return (2024, 5, 17)
  else Raise (ValueError "time data does not match format '%Y-%m-%d'").

(** The [li] of the job at [view_url], and the same without its title
    element. *)
Definition view_li : li_tag := li_of_job (job_of_url view_url) "2024-05-17".

Definition untitled_li : li_tag := {|
  find_full_link := find_full_link view_li;
  find_title := None;
  find_location := find_location view_li;
  find_subtitle := find_subtitle view_li;
  find_listdate := find_listdate view_li
|}.

(** A listing page of three [li]s, the second without title. *)
Definition listing_with_untitled (raw : string) : list li_element :=
  [Li view_li; Li untitled_li; Li view_li].

Definition listing_of_two (raw : string) : list li_element :=
  [Li view_li; Li view_li].

(** A detail page whose count of applicants is written with [n] nines. *)
Fixpoint nines (n : nat) : string :=
  match n with
  | O => ""
  | S n' => String "9" (nines n')
  end.

Definition long_count (n : nat) : Soup := {|
  find_markup := find_markup unknown_seniority;
  find_all_criteria := find_all_criteria unknown_seniority;
  find_num_applicants := Some (nines n +:+ " applicants")
|}.

(** Two tasks and one permit: both start, and the first leaves the block
    before the second has gone on. *)
Definition two_tasks_one_permit : list loop_event :=
  [Create; Create; Start 0; Start 1; Leave 0 false].

Definition three_proxies : ResilientAsyncSession :=
  ResilientAsyncSession_init (Some ["A"; "B"; "C"]).

(** A network that fails on the page at offset 15. *)
Definition fails_at_15 (task : nat) (u : string)
    (params : option (gmap string param)) : result Response :=
  match params with
  | Some p =>
      match p !! "start" with
      | Some (PInt 15) => Raise (RequestsError None)
      | _ => Return {| status_code := 200; text := u |}
      end
  | None => Return {| status_code := 200; text := u |}
  end.

(** * Properties *)

(** ** Results *)

Lemma bind_Return {A B} (a : A) (k : A -> result B) : Return a ≫= k = k a.
Proof. reflexivity. Qed.

Lemma bind_Raise {A B} (e : exn) (k : A -> result B) : Raise e ≫= k = Raise e.
Proof. reflexivity. Qed.

(** ** asyncio.gather *)

Module gather_facts.
Import asyncio.
Section Facts.
Context {A : Type}.
Implicit Types (children : list (result A)) (order : list nat).

Lemma results_Return (vs : list A) : results (Return <$> vs) = Return vs.
Proof.
  induction vs as [|v vs IH]; [reflexivity|].
  cbn [fmap list_fmap results]. fold (@fmap list _ A (result A) Return vs).
  rewrite IH. reflexivity.
Qed.

Lemma gather_loop_spec children order k :
  Forall (fun i => (i < length children)%nat) order ->
  (k + length order = length children)%nat ->
  order <> [] ->
  gather_loop children k order =
    Some (match first_failure children order with
          | Some e => Raise e
          | None => results children
          end).
Proof.
  revert k. induction order as [|i rest IH]; intros k Hlt Hlen Hne; [done|].
  apply Forall_cons in Hlt as [Hi Hrest]. cbn [length] in Hlen.
  cbn [gather_loop first_failure].
  destruct (lookup_lt_is_Some_2 children i Hi) as [c Hc]. rewrite Hc.
  destruct c as [a|e]; [|reflexivity].
  destruct (Nat.eqb_spec (S k) (length children)) as [Heq|Hneq].
  - destruct rest; [reflexivity|]. cbn [length] in Hlen. lia.
  - apply IH; [done|lia|]. intros ->. cbn [length] in Hlen. lia.
Qed.

(** Whatever the order in which the children finish, provided each of
      them finishes: the call raises the exception of the first child to
      fail, and returns the values in the order of the children when none
      fails. *)
Lemma gather_spec children order :
  order ≡ₚ seq 0 (length children) ->
  gather children order =
    Some (match first_failure children order with
          | Some e => Raise e
          | None => results children
          end).
Proof.
  intros Hperm. unfold gather. destruct children as [|c cs].
  - apply Permutation_nil_r in Hperm. subst order. reflexivity.
  - apply gather_loop_spec.
    + rewrite Hperm. apply Forall_forall. intros i Hi.
      apply elem_of_seq in Hi. lia.
    + rewrite Hperm, length_seq. lia.
    + intros ->. apply Permutation_length in Hperm.
      rewrite length_seq in Hperm. cbn in Hperm. lia.
Qed.

Lemma first_failure_None children order :
  (forall i, i ∈ order -> forall e, children !! i <> Some (Raise e)) ->
  first_failure children order = None.
Proof.
  induction order as [|i rest IH]; intros H; [reflexivity|].
  cbn [first_failure].
  destruct (children !! i) as [[a|e]|] eqn:E.
  - apply IH. intros j Hj. apply H. by right.
  - exfalso. eapply (H i); [by left|exact E].
  - apply IH. intros j Hj. apply H. by right.
Qed.

(** The first failure splits the order: the children in front of it
      finished with a value. *)
Lemma first_failure_Some children order e :
  first_failure children order = Some e ->
  exists pre j post,
    order = pre ++ j :: post
    /\ children !! j = Some (Raise e)
    /\ forall i, i ∈ pre -> forall e', children !! i <> Some (Raise e').
Proof.
  induction order as [|i rest IH]; intros H; [done|].
  cbn [first_failure] in H.
  destruct (children !! i) as [[a|e0]|] eqn:E.
  - destruct (IH H) as (pre & j & post & -> & Hj & Hpre).
    exists (i :: pre), j, post. split; [done|]. split; [done|].
    intros i' [->|Hi']%elem_of_cons e'; [congruence|by apply Hpre].
  - injection H as ->. exists [], i, rest. split; [done|]. split; [done|].
    intros i' Hi'. by apply elem_of_nil in Hi'.
  - destruct (IH H) as (pre & j & post & -> & Hj & Hpre).
    exists (i :: pre), j, post. split; [done|]. split; [done|].
    intros i' [->|Hi']%elem_of_cons e'; [congruence|by apply Hpre].
Qed.

Lemma first_failure_is_Some children order i e :
  i ∈ order -> children !! i = Some (Raise e) ->
  is_Some (first_failure children order).
Proof.
  induction order as [|j rest IH]; intros Hi Hc; [by apply elem_of_nil in Hi|].
  cbn [first_failure].
  destruct (children !! j) as [[a|e0]|] eqn:E; [|by eexists|].
  - apply elem_of_cons in Hi as [->|Hi]; [congruence|by apply IH].
  - apply elem_of_cons in Hi as [->|Hi]; [congruence|by apply IH].
Qed.
End Facts.
End gather_facts.

(** ** Page count *)

Lemma ceiling_div_least n d :
  0 < d -> n <= ceiling_div n d * d /\ (ceiling_div n d - 1) * d < n.
Proof.
  intros Hd. unfold ceiling_div.
  pose proof (Z.div_mod (n + d - 1) d ltac:(lia)) as Hdm.
  pose proof (Z.mod_pos_bound (n + d - 1) d Hd) as Hm.
  nia.
Qed.

Lemma total_pages_checked : forallb total_pages_check (seq 0 1001) = true.
Proof. vm_compute. reflexivity. Qed.

(** On every limit that passes the validation, the float quotient and
    [math.ceil] give the exact ceiling. *)
Lemma total_pages_ceiling limit :
  0 <= limit <= 1000 ->
  Py.truediv limit LINKEDIN_PAGE_SIZE ≫= Py.ceil
  = Return (ceiling_div limit LINKEDIN_PAGE_SIZE).
Proof.
  intros Hl.
  pose proof total_pages_checked as H.
  rewrite forallb_forall in H.
  specialize (H (Z.to_nat limit)).
  assert (Hin : In (Z.to_nat limit) (seq 0 1001)) by (apply in_seq; lia).
  specialize (H Hin). unfold total_pages_check in H.
  rewrite Z2Nat.id in H by lia.
  destruct (Py.truediv limit LINKEDIN_PAGE_SIZE ≫= Py.ceil) as [k|e]; [|done].
  apply Z.eqb_eq in H. by subst.
Qed.

Lemma length_concat_pages {A} (pages : list (list A)) (n : nat) :
  Forall (fun page => length page = n) pages ->
  length (concat pages) = (n * length pages)%nat.
Proof.
  induction 1 as [|page pages Hp _ IH]; cbn [concat length]; [lia|].
  rewrite length_app, IH, Hp. lia.
Qed.

(** ** linkedin_client.py *)

Section ClientProperties.
Variable session_get :
  nat -> string -> option (gmap string param) -> result Response.
Variable parse_jobs : string -> result (list Job.t).
Variable BeautifulSoup : string -> Soup.


(** The offsets [offset], [offset + 10], ... of [n] pages. *)
Lemma page_starts offset (n : Z) :
  map (fun i => offset + i * LINKEDIN_PAGE_SIZE) (Py.range n)
  = (fun i : nat => offset + Z.of_nat i * 10) <$> seq 0 (Z.to_nat n).
Proof. unfold Py.range. rewrite map_map. reflexivity. Qed.

(** A valid call passes the validation and plans its pages. *)
Lemma fetch_jobs_valid filter offset limit order :
  0 <= offset -> 0 <= limit -> offset + limit <= 1000 ->
  let starts :=
    (fun i : nat => offset + Z.of_nat i * 10)
      <$> seq 0 (Z.to_nat (ceiling_div limit 10)) in
  fetch_jobs session_get parse_jobs filter offset (Some limit) order =
    {| created := (fun start => (filter, start)) <$> starts;
       outcome :=
         match asyncio.gather
                 (imap (fun i start =>
                          _fetch_jobs_page session_get parse_jobs i filter start)
                    starts)
                 order with
         | None => None
         | Some gathered =>
             Some (results ← gathered;
                   Return (Py.slice_to (concat results) limit))
         end |}.
Proof.
  intros Ho Hl Hsum starts. unfold fetch_jobs.
  replace ((offset <? 0) || (limit <? 0)) with false
    by (symmetry; apply orb_false_iff; split; apply Z.ltb_ge; lia).
  replace (LINKEDIN_JOB_QUERY_LIMIT <? offset + limit) with false
    by (symmetry; apply Z.ltb_ge; unfold LINKEDIN_JOB_QUERY_LIMIT; lia).
  rewrite total_pages_ceiling by lia.
  rewrite page_starts. reflexivity.
Qed.

(** C2, as the code has it: an explicit [limit=None] stands for
    [limit = 1000 - offset], everything left up to the ceiling; an omitted
    [limit] takes the default of the signature, one page of 10.  With
    [None] and an offset from 0 to 1000 the call plans the
    [ceil((1000 - offset) / 10)] pages from [offset] on. *)
Theorem fetch_jobs_limit_None filter (offset : arg Z) order :
  let o := arg_value 0 offset in
  call_fetch_jobs session_get parse_jobs filter offset (Passed None) order
  = fetch_jobs session_get parse_jobs filter o
      (Some (LINKEDIN_JOB_QUERY_LIMIT - o)) order
  /\ call_fetch_jobs session_get parse_jobs filter offset Omitted order
     = fetch_jobs session_get parse_jobs filter o (Some LINKEDIN_PAGE_SIZE) order
  /\ (0 <= o <= 1000 ->
      created (call_fetch_jobs session_get parse_jobs filter offset (Passed None) order)
      = (fun i : nat => (filter, o + Z.of_nat i * 10))
          <$> seq 0 (Z.to_nat (ceiling_div (1000 - o) 10))).
Proof.
  intros o. split; [reflexivity|]. split; [reflexivity|].
  intros Ho.
  replace (call_fetch_jobs session_get parse_jobs filter offset (Passed None) order)
    with (fetch_jobs session_get parse_jobs filter o (Some (1000 - o)) order)
    by reflexivity.
  rewrite fetch_jobs_valid by lia. cbn [created].
  rewrite <- list_fmap_compose. reflexivity.
Qed.

(** C3: when [offset] is negative, or a given [limit] is negative, or
    [offset + limit] exceeds 1000, [fetch_jobs] raises [ValueError] and
    has created no page task. *)
Theorem fetch_jobs_validation filter offset limit order :
  offset < 0
  \/ (exists l, limit = Some l /\ (l < 0 \/ 1000 < offset + l)) ->
  exists msg,
    fetch_jobs session_get parse_jobs filter offset limit order
    = {| created := []; outcome := Some (Raise (ValueError msg)) |}.
Proof.
  intros H. unfold fetch_jobs.
  set (l := match limit with
            | Some l => l
            | None => LINKEDIN_JOB_QUERY_LIMIT - offset
            end).
  destruct ((offset <? 0) || (l <? 0)) eqn:E1; [by eexists|].
  apply orb_false_iff in E1 as [Eo El].
  apply Z.ltb_ge in Eo, El.
  assert (Hsum : 1000 < offset + l).
  { destruct H as [H|(l' & -> & [H|H])]; subst l; lia. }
  replace (LINKEDIN_JOB_QUERY_LIMIT <? offset + l) with true
    by (symmetry; apply Z.ltb_lt; unfold LINKEDIN_JOB_QUERY_LIMIT; lia).
  by eexists.
Qed.

(** C6: for a non-empty list of ids and whatever the order in which the
    tasks finish, [fetch_jobs_details] creates one task per id, in the order
    of the ids; when every id yields its details the call returns them in
    that order, one per id; when an id fails the call raises the error of
    the first id to fail, which is the error of that id when no other id
    fails, and it returns no list. *)
Theorem fetch_jobs_details_all_or_nothing (ids : list string) order :
  ids <> [] ->
  order ≡ₚ seq 0 (length ids) ->
  let r := fetch_jobs_details session_get BeautifulSoup ids order in
  created r = ids
  /\ (forall ds : list JobDetails,
        length ds = length ids ->
        (forall (i : nat) id d, ids !! i = Some id -> ds !! i = Some d ->
           _fetch_job_details session_get BeautifulSoup i id = Return d) ->
        outcome r = Some (Return ds))
  /\ (forall (i : nat) id e,
        ids !! i = Some id ->
        _fetch_job_details session_get BeautifulSoup i id = Raise e ->
        exists pre (j : nat) post id' e',
          order = pre ++ j :: post
          /\ ids !! j = Some id'
          /\ _fetch_job_details session_get BeautifulSoup j id' = Raise e'
          /\ (forall (k : nat) idk, k ∈ pre -> ids !! k = Some idk ->
                exists d,
                  _fetch_job_details session_get BeautifulSoup k idk = Return d)
          /\ outcome r = Some (Raise e')
          /\ ((forall (k : nat) idk, k <> i -> ids !! k = Some idk ->
                 exists d,
                   _fetch_job_details session_get BeautifulSoup k idk = Return d) ->
              e' = e)).
Proof.
  intros Hne Hperm r. subst r. unfold fetch_jobs_details.
  cbn [created outcome].
  set (tasks := imap (fun i id => _fetch_job_details session_get BeautifulSoup i id) ids).
  assert (Hlen : length tasks = length ids) by apply length_imap.
  assert (Hlook : forall i,
    tasks !! i
    = (fun id => _fetch_job_details session_get BeautifulSoup i id) <$> ids !! i).
  { intros i. apply list_lookup_imap. }
  rewrite gather_facts.gather_spec by (rewrite Hlen; exact Hperm).
  split; [reflexivity|]. split.
  - intros ds Hds Hall.
    assert (Htasks : tasks = Return <$> ds).
    { apply list_eq. intros i. rewrite Hlook, list_lookup_fmap.
      destruct (ids !! i) as [id|] eqn:Ei; cbn.
      - destruct (lookup_lt_is_Some_2 ds i) as [d Hd].
        { rewrite Hds. eapply lookup_lt_Some, Ei. }
        rewrite Hd. cbn. f_equal. by eapply Hall.
      - rewrite (lookup_ge_None_2 ds i); [done|].
        rewrite Hds. by apply lookup_ge_None. }
    rewrite Htasks, gather_facts.first_failure_None.
    + by rewrite gather_facts.results_Return.
    + intros i _ e. rewrite list_lookup_fmap. destruct (ds !! i); cbn; congruence.
  - intros i id e Hi He.
    assert (Hin : i ∈ order).
    { rewrite Hperm. apply elem_of_seq. apply lookup_lt_Some in Hi. lia. }
    assert (Hti : tasks !! i = Some (Raise e)) by (rewrite Hlook, Hi; cbn; by f_equal).
    destruct (gather_facts.first_failure_is_Some tasks order i e Hin Hti) as [e' Hff].
    rewrite Hff.
    destruct (gather_facts.first_failure_Some tasks order e' Hff)
      as (pre & j & post & Hord & Hj & Hpre).
    rewrite Hlook in Hj. destruct (ids !! j) as [id'|] eqn:Ej; [|done].
    cbn in Hj. injection Hj as Hj.
    exists pre, j, post, id', e'. repeat split; try done.
    + intros k idk Hk Hidk. specialize (Hpre k Hk).
      rewrite Hlook, Hidk in Hpre. cbn in Hpre.
      destruct (_fetch_job_details session_get BeautifulSoup k idk) as [d|e0]; [by eexists|].
      by destruct (Hpre e0).
    + intros Honly. destruct (decide (j = i)) as [->|Hji].
      * rewrite Hi in Ej. injection Ej as <-. congruence.
      * destruct (Honly j id' Hji Ej) as [d Hd]. congruence.
Qed.

End ClientProperties.

(** ** resilient_async_session.py *)

Lemma should_retry_retryable err retry :
  _should_retry_request err retry = true
  <-> retryable err = true /\ (retry < RETRY_COUNT)%nat.
Proof.
  unfold _should_retry_request.
  destruct (Nat.leb_spec RETRY_COUNT retry) as [Hle|Hlt].
  - split; [done|]. intros [_ H]. lia.
  - unfold retryable. destruct err as [| | | |[r|]|]; split; try done;
      try (by intros [? _]); by intros.
Qed.

Lemma should_retry_not_retryable err retry :
  retryable err = false -> _should_retry_request err retry = false.
Proof.
  intros H. destruct (_should_retry_request err retry) eqn:E; [|done].
  apply should_retry_retryable in E as [E _]. congruence.
Qed.

Lemma attempts_of_forget events :
  attempts_of (forget_proxy <$> events) = attempts_of events.
Proof.
  induction events as [|[r p|d] events IH]; cbn; [done| |done].
  unfold attempts_of in IH. by rewrite IH.
Qed.

Lemma sleeps_of_forget events :
  sleeps_of (forget_proxy <$> events) = sleeps_of events.
Proof.
  induction events as [|[r p|d] events IH]; cbn; [done|done|].
  unfold sleeps_of in IH. by rewrite IH.
Qed.

Lemma attempts_of_schedule first more :
  attempts_of (backoff_schedule first more) = seq first (S more).
Proof.
  revert first. induction more as [|m IH]; intros first; [done|].
  cbn [backoff_schedule]. change (attempts_of (?a :: Sleep ?d :: ?l))
    with (first :: attempts_of (backoff_schedule (S first) m)).
  by rewrite IH.
Qed.

Lemma sleeps_of_schedule first more :
  sleeps_of (backoff_schedule first more)
  = (fun j : nat => 2 ^ Z.of_nat j) <$> seq first more.
Proof.
  revert first. induction more as [|m IH]; intros first; [done|].
  cbn [backoff_schedule]. change (sleeps_of (?a :: Sleep ?d :: ?l))
    with (d :: sleeps_of (backoff_schedule (S first) m)).
  by rewrite IH.
Qed.

(** In a schedule every sleep stands between an attempt and the attempt
    with the next number, and lasts 2 to the power of the former. *)
Lemma schedule_sleep_between events first more pre d post :
  forget_proxy <$> events = backoff_schedule first more ->
  events = pre ++ Sleep d :: post ->
  exists pre' (j : nat) p p' post',
    pre = pre' ++ [Attempt j p]
    /\ d = 2 ^ Z.of_nat j
    /\ post = Attempt (S j) p' :: post'.
Proof.
  revert events first pre. induction more as [|m IH]; intros events first pre Hs He.
  - destruct events as [|e [|e' events]]; simplify_eq/=.
    destruct pre as [|x [|y pre]]; simplify_eq/=.
  - destruct events as [|e [|e' events]]; simplify_eq/=.
    destruct e as [r p|]; simplify_eq/=. destruct e' as [|d']; simplify_eq/=.
    destruct pre as [|x [|y pre]]; simplify_eq/=.
    + destruct m; destruct post as [|[r' p'|] post]; simplify_eq/=;
        by exists [], first, p, p', post.
    + destruct (IH _ _ pre H1 eq_refl)
        as (pre' & j & q & q' & post' & -> & -> & ->).
      by exists (Attempt first p :: Sleep (2 ^ Z.of_nat first) :: pre'), j, q, q', post'.
Qed.

Section ExecutorProperties.
Variable ok : Z -> bool.
Variable transport : nat -> result Response.

(** [raise_for_status] accepts the statuses from 200 to 299 and rejects
    those from 400 on; the other statuses are left to it. *)
Hypothesis ok_2xx : forall s, 200 <= s < 300 -> ok s = true.
Hypothesis ok_from_400 : forall s, 400 <= s -> ok s = false.

(** The loop from attempt [k] on: it ends with some attempt [n], after the
    schedule from [k] to [n]; the attempts before [n] failed and were to be
    retried, and the call ends as attempt [n] does. *)
Lemma request_loop_run m : forall k self proxy,
  (k + S m = RETRY_COUNT + 1)%nat ->
  exists (n : nat) self' events res,
    request_loop ok transport (seq k (S m)) self proxy = (self', events, res)
    /\ (k <= n <= k + m)%nat
    /\ forget_proxy <$> events = backoff_schedule k (n - k)
    /\ (forall j, (k <= j < n)%nat ->
          exists err, attempt ok transport j = Raise err
                      /\ _should_retry_request err j = true)
    /\ res = ended_by (attempt ok transport n)
    /\ (forall err, attempt ok transport n = Raise err ->
          _should_retry_request err n = false).
Proof.
  induction m as [|m IH]; intros k self proxy Hk.
  - assert (k = RETRY_COUNT) as -> by lia.
    cbn [seq request_loop].
    destruct (next (_proxy_cycle self)) as [p c].
    destruct (attempt ok transport RETRY_COUNT) as [resp|err] eqn:Ea.
    + eexists RETRY_COUNT, _, _, _. split; [reflexivity|].
      rewrite Ea, Nat.sub_diag. repeat split; try done; try lia.
    + assert (Hno : _should_retry_request err RETRY_COUNT = false).
      { unfold _should_retry_request. by rewrite Nat.leb_refl. }
      exists RETRY_COUNT. destruct err as [| | | |r|];
        (eexists _, _, _; split; [reflexivity|];
         rewrite Ea, Nat.sub_diag; repeat split; try done; try lia;
         intros err [= <-]; exact Hno).
  - change (seq k (S (S m))) with (k :: seq (S k) (S m)).
    cbn [request_loop].
    destruct (next (_proxy_cycle self)) as [p c].
    set (self1 := {| _proxy_cycle := c |}).
    set (proxy1 := if String.eqb p "" then proxy else Some p).
    destruct (attempt ok transport k) as [resp|err] eqn:Ea.
    + eexists k, _, _, _. split; [reflexivity|].
      rewrite Ea, Nat.sub_diag. repeat split; try done; try lia.
    + assert (Hstop : _should_retry_request err k = false ->
        exists (n : nat) self' events res,
          (self1, [Attempt k proxy1], @Raise (option Response) err)
          = (self', events, res)
          /\ (k <= n <= k + S m)%nat
          /\ forget_proxy <$> events = backoff_schedule k (n - k)
          /\ (forall j, (k <= j < n)%nat ->
                exists err, attempt ok transport j = Raise err
                            /\ _should_retry_request err j = true)
          /\ res = ended_by (attempt ok transport n)
          /\ (forall err, attempt ok transport n = Raise err ->
                _should_retry_request err n = false)).
      { intros Hno. eexists k, _, _, _. split; [reflexivity|].
        rewrite Ea, Nat.sub_diag. repeat split; try done; try lia.
        intros err' [= <-]; exact Hno. }
      destruct err as [| | | |r|];
        try (apply Hstop; apply should_retry_not_retryable; reflexivity).
      destruct (_should_retry_request (RequestsError r) k) eqn:Er;
        [|by apply Hstop].
      destruct (IH (S k) self1 proxy1 ltac:(lia))
        as (n & self' & events & res & Hrun & Hn & Hsched & Hbefore & Hres & Hlast).
      rewrite Hrun. eexists n, _, _, _. split; [reflexivity|].
      split; [lia|]. split.
      { cbn [fmap list_fmap forget_proxy].
        replace (n - k)%nat with (S (n - S k)) by lia.
        cbn [backoff_schedule]. do 2 f_equal. exact Hsched. }
      split; [|done].
      intros j Hj. destruct (decide (j = k)) as [->|Hjk].
      * by eexists.
      * apply Hbefore. lia.
Qed.

(** The whole call. *)
Lemma request_run self proxy :
  exists (n : nat),
    (n <= RETRY_COUNT)%nat
    /\ forget_proxy <$> (request ok transport self proxy).1.2
       = backoff_schedule 0 n
    /\ (forall j, (j < n)%nat ->
          exists err, attempt ok transport j = Raise err
                      /\ _should_retry_request err j = true)
    /\ (request ok transport self proxy).2 = ended_by (attempt ok transport n)
    /\ (forall err, attempt ok transport n = Raise err ->
          _should_retry_request err n = false).
Proof.
  unfold request.
  destruct (request_loop_run RETRY_COUNT 0 self proxy ltac:(unfold RETRY_COUNT; lia))
    as (n & self' & events & res & Hrun & Hn & Hsched & Hbefore & Hres & Hlast).
  replace (RETRY_COUNT + 1)%nat with (S RETRY_COUNT) by lia.
  rewrite Hrun. cbn [fst snd]. exists n. rewrite Nat.sub_0_r in Hsched.
  split; [lia|]. split; [done|]. split; [|done].
  intros j Hj. apply Hbefore. lia.
Qed.

Lemma request_attempts self proxy n :
  forget_proxy <$> (request ok transport self proxy).1.2 = backoff_schedule 0 n ->
  attempts_of (request ok transport self proxy).1.2 = seq 0 (S n).
Proof.
  intros H. by rewrite <- attempts_of_forget, H, attempts_of_schedule.
Qed.

Lemma attempt_response (j : nat) resp :
  transport j = Return resp ->
  attempt ok transport j
  = if ok (status_code resp) then Return resp
    else Raise (RequestsError (Some resp)).
Proof.
  intros H. unfold attempt, raise_for_status. rewrite H. cbn.
  by destruct (ok (status_code resp)).
Qed.

(** C5: the events of a call are attempt 0, and then as many times as a
    further attempt is made a sleep of [2^attempt] followed by that attempt:
    every sleep stands between an attempt [j] and the attempt [j + 1] and
    lasts [2^j], and no sleep follows the last attempt.  A call whose
    attempts 0, 1 and 2 get status 503 and whose attempt 3 gets a status from
    200 to 299 returns that response after the sleeps 1, 2 and 4. *)
Theorem request_backoff self proxy :
  let run := request ok transport self proxy in
  (exists n : nat,
     (n <= RETRY_COUNT)%nat
     /\ forget_proxy <$> run.1.2 = backoff_schedule 0 n
     /\ sleeps_of run.1.2 = (fun j : nat => 2 ^ Z.of_nat j) <$> seq 0 n)
  /\ (forall pre d post,
        run.1.2 = pre ++ Sleep d :: post ->
        exists pre' (j : nat) p p' post',
          pre = pre' ++ [Attempt j p]
          /\ d = 2 ^ Z.of_nat j
          /\ post = Attempt (S j) p' :: post')
  /\ (forall r0 r1 r2 r3,
        transport 0%nat = Return r0 -> status_code r0 = 503 ->
        transport 1%nat = Return r1 -> status_code r1 = 503 ->
        transport 2%nat = Return r2 -> status_code r2 = 503 ->
        transport 3%nat = Return r3 -> 200 <= status_code r3 < 300 ->
        run.2 = Return (Some r3)
        /\ attempts_of run.1.2 = [0; 1; 2; 3]%nat
        /\ sleeps_of run.1.2 = [1; 2; 4]
        /\ foldr Z.add 0 (sleeps_of run.1.2) = 1 + 2 + 4).
Proof.
  intros run.
  destruct (request_run self proxy) as (n & Hn & Hsched & Hbefore & Hres & Hlast).
  fold run in Hsched, Hres.
  assert (Hsleeps : sleeps_of run.1.2 = (fun j : nat => 2 ^ Z.of_nat j) <$> seq 0 n).
  { by rewrite <- sleeps_of_forget, Hsched, sleeps_of_schedule. }
  split; [by exists n|]. split.
  { intros pre d post Hsplit. by eapply schedule_sleep_between. }
  intros r0 r1 r2 r3 H0 S0 H1 S1 H2 S2 H3 S3.
  assert (Hretry : forall (j : nat) r,
    (j < 3)%nat -> transport j = Return r -> status_code r = 503 -> n <> j).
  { intros j r Hj Ht Hs ->.
    specialize (Hlast (RequestsError (Some r))).
    rewrite (attempt_response j r Ht), ok_from_400 in Hlast by lia.
    specialize (Hlast eq_refl).
    assert (_should_retry_request (RequestsError (Some r)) j = true); [|congruence].
    apply should_retry_retryable. split; [|unfold RETRY_COUNT; lia].
    cbn. rewrite Hs. done. }
  assert (n = 3%nat) as ->.
  { pose proof (Hretry 0%nat r0 ltac:(lia) H0 S0).
    pose proof (Hretry 1%nat r1 ltac:(lia) H1 S1).
    pose proof (Hretry 2%nat r2 ltac:(lia) H2 S2).
    unfold RETRY_COUNT in Hn. lia. }
  rewrite Hsleeps.
  split; [rewrite Hres, (attempt_response 3 r3 H3), ok_2xx by done; done|].
  split; [exact (request_attempts self proxy 3%nat Hsched)|done].
Qed.

End ExecutorProperties.


(** ** parsing.py *)

Lemma values_of_cons key k v rest :
  values_of key (Tag (Some k) (Some v) :: rest)
  = if String.eqb k key then v :: values_of key rest else values_of key rest.
Proof. unfold values_of. cbn. by destruct (String.eqb k key). Qed.

(** The loop keeps, for each of the two keys, what the last entry with that
    key assigns. *)
Lemma criteria_loop_last criterias : forall et el,
  forallb parseable criterias = true ->
  criteria_loop criterias et el
  = Return
      (match last (values_of "Employment type" criterias) with
       | Some v => STR_TO_EMPLOYMENT_TYPE_MAP !! v
       | None => et
       end,
       match last (values_of "Seniority level" criterias) with
       | Some v => STR_TO_EXPERIENCE_LEVEL_MAP !! v
       | None => el
       end).
Proof.
  induction criterias as [|item rest IH]; intros et el Hp; [reflexivity|].
  cbn [forallb] in Hp. apply andb_true_iff in Hp as [Hitem Hrest].
  destruct item as [|[k|] [v|]]; try done.
  cbn [criteria_loop]. rewrite IH by done. rewrite !values_of_cons.
  do 2 f_equal.
  - destruct (String.eqb k "Employment type"); [|done].
    rewrite last_cons. by destruct (last (values_of "Employment type" rest)).
  - destruct (String.eqb k "Seniority level"); [|done].
    rewrite last_cons. by destruct (last (values_of "Seniority level" rest)).
Qed.

(** C10: when the entries are parseable, the last entry with the key
    "Employment type" alone decides the employment type, and the last with
    the key "Seniority level" the experience level; so a page whose last
    "Employment type" entry has an unmapped value fails with the employment
    type error whatever the entries before it, as the page with a mapped
    entry followed by an unmapped one does. *)
Theorem criteria_last_entry_wins (BeautifulSoup : string -> Soup) raw :
  let html := BeautifulSoup raw in
  let criterias := find_all_criteria html in
  forallb parseable criterias = true ->
  (forall et el,
     criteria_loop criterias et el
     = Return
         (match last (values_of "Employment type" criterias) with
          | Some v => STR_TO_EMPLOYMENT_TYPE_MAP !! v
          | None => et
          end,
          match last (values_of "Seniority level" criterias) with
          | Some v => STR_TO_EXPERIENCE_LEVEL_MAP !! v
          | None => el
          end))
  /\ (forall d v,
        description_block html = Return d ->
        last (values_of "Employment type" criterias) = Some v ->
        STR_TO_EMPLOYMENT_TYPE_MAP !! v = None ->
        parse_job_details BeautifulSoup raw
        = Raise (ValueError "Could not parse employment type"))
  /\ (forall raw',
        "Full-time" ∈ values_of "Employment type"
                         (find_all_criteria two_employment_types)
        /\ is_Some (STR_TO_EMPLOYMENT_TYPE_MAP !! "Full-time")
        /\ parse_job_details (fun _ => two_employment_types) raw'
           = Raise (ValueError "Could not parse employment type")).
Proof.
  intros html criterias Hp. split; [|split].
  - intros et el. by apply criteria_loop_last.
  - intros d v Hd Hlast Hv. unfold parse_job_details. fold html.
    rewrite Hd. cbn. fold criterias.
    rewrite criteria_loop_last by done. rewrite Hlast, Hv. reflexivity.
  - intros raw'. split; [|split].
    + vm_compute. apply list_elem_of_here.
    + by eexists.
    + reflexivity.
Qed.

(** C8, as the code has it: on a page whose criteria entries are parseable,
    an unmapped value of the seniority level never fails the extraction: when
    the description and the applicant count are found and the last
    "Employment type" entry has a mapped value, the page parses to a record
    with that type, and with the experience level of the last
    "Seniority level" entry, absent when its value is unmapped or there is no
    such entry.  The employment type is mandatory: when no entry has a
    mapped employment type the extraction fails with a [ValueError]. *)
Theorem parse_job_details_criteria (BeautifulSoup : string -> Soup) raw :
  let html := BeautifulSoup raw in
  let criterias := find_all_criteria html in
  forallb parseable criterias = true ->
  (forall d n v t,
     description_block html = Return d ->
     applicant_count_block html = Return n ->
     last (values_of "Employment type" criterias) = Some v ->
     STR_TO_EMPLOYMENT_TYPE_MAP !! v = Some t ->
     parse_job_details BeautifulSoup raw
     = Return {|
         description := d;
         employment_type := t;
         experience_level :=
           last (values_of "Seniority level" criterias)
             ≫= (STR_TO_EXPERIENCE_LEVEL_MAP !!.);
         applicant_count := n
       |})
  /\ ((forall v, v ∈ values_of "Employment type" criterias ->
         STR_TO_EMPLOYMENT_TYPE_MAP !! v = None) ->
      exists msg, parse_job_details BeautifulSoup raw = Raise (ValueError msg)).
Proof.
  intros html criterias Hp. split.
  - intros d n v t Hd Hn Hlast Hv. unfold parse_job_details. fold html.
    rewrite Hd. cbn. fold criterias.
    rewrite criteria_loop_last by done. rewrite Hlast, Hv. cbn.
    rewrite Hn. reflexivity.
  - intros Hnone. unfold parse_job_details. fold html.
    destruct (description_block html) as [d|e] eqn:Hd.
    + cbn. fold criterias. rewrite criteria_loop_last by done.
      destruct (last (values_of "Employment type" criterias)) as [v|] eqn:Hlast.
      * rewrite Hnone; [by eexists|].
        apply last_Some in Hlast as [l' ->]. apply elem_of_app. right.
        by apply list_elem_of_singleton.
      * by eexists.
    + unfold description_block in Hd.
      destruct (find_markup html) as [contents|].
      * destruct (Py.strip contents); simplify_eq; by eexists.
      * simplify_eq. by eexists.
Qed.

(** ** The pattern of Job.id *)

Lemma digit_not_terminator c :
  Py.is_digit c = true ->
  re.accepts (re.OneOf ["/"%char; "?"%char]) c = false
  /\ Ascii.eqb c "010"%char = false
  /\ Ascii.eqb "-" c = false.
Proof.
  intros H. repeat split.
  - cbn. destruct (Ascii.eqb_spec c "/") as [->|_]; [by vm_compute in H|].
    destruct (Ascii.eqb_spec c "?") as [->|_]; [by vm_compute in H|done].
  - destruct (Ascii.eqb_spec c "010"%char) as [->|_]; [by vm_compute in H|done].
  - destruct (Ascii.eqb_spec "-" c) as [<-|_]; [by vm_compute in H|done].
Qed.

Lemma length_app_string a b :
  String.length (a +:+ b) = (String.length a + String.length b)%nat.
Proof.
  induction a as [|c a IH]; [done|].
  change (S (String.length (a +:+ b)) = S (String.length a + String.length b)).
  by rewrite IH.
Qed.

Lemma consumed_app ds rest : re.consumed (ds +:+ rest) rest = ds.
Proof.
  unfold re.consumed. rewrite length_app_string.
  replace (String.length ds + String.length rest - String.length rest)%nat
    with (String.length ds) by lia.
  induction ds as [|c ds IH].
  - by destruct rest.
  - change (String c (substring 0 (String.length ds) (ds +:+ rest))
            = String c ds).
    by rewrite IH.
Qed.

Lemma app_String c a b : String c a +:+ b = String c (a +:+ b).
Proof. reflexivity. Qed.

Lemma app_EmptyString b : "" +:+ b = b.
Proof. reflexivity. Qed.

Lemma digits_split s : s = digits_prefix s +:+ after_digits s.
Proof.
  induction s as [|c s IH]; [done|]. simpl.
  destruct (Py.is_digit c); [|done]. rewrite app_String. by rewrite <- IH.
Qed.

Lemma digits_prefix_all s : all_digits (digits_prefix s) = true.
Proof.
  induction s as [|c s IH]; [done|]. simpl.
  destruct (Py.is_digit c) eqn:E; [|done]. simpl. by rewrite E.
Qed.

Lemma after_digits_head s c s' :
  after_digits s = String c s' -> Py.is_digit c = false.
Proof.
  induction s as [|a s IH]; [done|]. simpl.
  destruct (Py.is_digit a) eqn:E; [done|]. by intros [= <- _].
Qed.

(** A run of digits followed by something that does not start with a digit
    is the longest run. *)
Lemma digits_prefix_app ds rest :
  all_digits ds = true ->
  (forall c r, rest = String c r -> Py.is_digit c = false) ->
  digits_prefix (ds +:+ rest) = ds /\ after_digits (ds +:+ rest) = rest.
Proof.
  intros Hds Hrest. induction ds as [|c ds IH].
  - rewrite app_EmptyString. destruct rest as [|c r]; [done|].
    simpl. by rewrite (Hrest c r).
  - simpl in Hds. apply andb_true_iff in Hds as [Hc Hds].
    rewrite app_String. simpl. rewrite Hc.
    destruct (IH Hds) as [-> ->]. done.
Qed.

Section Backtracking.
Context {R : Type}.

(** The greedy run gives back nothing when the continuation refuses what
    starts with a digit: only the longest run is tried with success. *)
Lemma star_digits ds rest (k : string -> option R) :
  all_digits ds = true ->
  (forall c r, rest = String c r -> Py.is_digit c = false) ->
  (forall c r, Py.is_digit c = true -> k (String c r) = None) ->
  re.star Py.is_digit (ds +:+ rest) k = k rest.
Proof.
  intros Hds Hrest Hk. induction ds as [|c ds IH].
  - rewrite app_EmptyString. destruct rest as [|c r]; [done|].
    simpl. by rewrite (Hrest c r).
  - simpl in Hds. apply andb_true_iff in Hds as [Hc Hds].
    rewrite app_String. simpl. rewrite Hc, (IH Hds).
    destruct (k rest) eqn:E; [done|]. by apply Hk.
Qed.
End Backtracking.

(** The group and the end of the pattern at the head of [s]. *)
Lemma group_and_end s g :
  re.re_match
    (re.Cat (re.Group (re.Plus re.Digit))
       (re.Alt (re.Chr (re.OneOf ["/"%char; "?"%char])) re.Eos))
    s g (fun _ g' => Some {| re.group1 := g' |})
  = (fun ds => {| re.group1 := Some ds |}) <$> id_here s.
Proof.
  unfold id_here. destruct s as [|c s]; [done|].
  cbn [re.re_match re.plus re.accepts digits_prefix after_digits].
  destruct (Py.is_digit c) eqn:Ec; [|done].
  pose proof (digits_split s) as Hs.
  pose proof (digits_prefix_all s) as Hall.
  pose proof (after_digits_head s) as Hhead.
  set (ds := digits_prefix s) in *. set (rest := after_digits s) in *.
  rewrite Hs at 1. rewrite star_digits; [|done|by eauto|].
  - assert (Hc : re.consumed (String c s) rest = String c ds).
    { rewrite Hs. apply (consumed_app (String c ds) rest). }
    rewrite Hc. unfold terminator.
    destruct rest as [|a r]; [done|].
    cbn [re.re_match].
    change (existsb (Ascii.eqb a) ["/"%char; "?"%char])
      with (re.accepts (re.OneOf ["/"%char; "?"%char]) a).
    destruct (re.accepts (re.OneOf ["/"%char; "?"%char]) a); [done|].
    cbn [orb]. by destruct (re.at_end (String a r)).
  - intros a r Ha. destruct (digit_not_terminator a Ha) as (H1 & H2 & _).
    cbn [re.re_match].
    change (existsb (Ascii.eqb a) ["/"%char; "?"%char])
      with (re.accepts (re.OneOf ["/"%char; "?"%char]) a).
    rewrite H1. cbn [re.at_end].
    destruct r; [by rewrite H2|done].
Qed.

Lemma re_match_opt_lit {R} c0 r s g (k : string -> option string -> option R) :
  re.re_match (re.Cat (re.Opt (re.Chr (re.Lit c0))) r) s g k
  = match
      match s with
      | String c s' => if Ascii.eqb c0 c then re.re_match r s' g k else None
      | EmptyString => None
      end
    with
    | Some x => Some x
    | None => re.re_match r s g k
    end.
Proof. reflexivity. Qed.

(** [re_match] on the pattern of [Job.id] at the head of [s]. *)
Lemma job_id_pattern_here s :
  re.re_match job_id_pattern s None (fun _ g => Some {| re.group1 := g |})
  = (fun ds => {| re.group1 := Some ds |}) <$> id_at s.
Proof.
  unfold job_id_pattern. rewrite re_match_opt_lit.
  destruct s as [|c s].
  - rewrite group_and_end. done.
  - cbn [id_at]. destruct (Ascii.eqb "-" c) eqn:Ec.
    + rewrite !group_and_end. destruct (id_here s) as [ds|] eqn:E; [done|].
      cbn. unfold id_here. cbn [digits_prefix].
      destruct (Py.is_digit c) eqn:Ed; [|done].
      destruct (digit_not_terminator c Ed) as (_ & _ & H). congruence.
    + rewrite group_and_end. done.
Qed.

(** [re.search] with the pattern of [Job.id] is [find_id]. *)
Lemma search_job_id_pattern s :
  re.search job_id_pattern s
  = (fun ds => {| re.group1 := Some ds |}) <$> find_id s.
Proof.
  induction s as [|c s IH]; cbn [re.search find_id];
    rewrite (job_id_pattern_here _).
  - by destruct (id_at "").
  - destruct (id_at (String c s)); [done|]. cbn. exact IH.
Qed.

Lemma terminator_not_digit a r :
  terminator (String a r) = true -> Py.is_digit a = false.
Proof.
  intros H. destruct (Py.is_digit a) eqn:E; [|done].
  destruct (digit_not_terminator a E) as (H1 & H2 & _).
  unfold terminator in H. rewrite H1 in H. cbn in H.
  destruct r; [|done]. congruence.
Qed.

Lemma suffix_tail_terminator tail :
  suffix_tail tail = true ->
  terminator tail = true
  /\ forall c r, tail = String c r -> Py.is_digit c = false.
Proof.
  intros H. assert (Ht : terminator tail = true).
  { destruct tail as [|c r]; [done|]. cbn in H. unfold terminator. cbn.
    apply orb_true_iff in H as [->| ->]; [done|].
    by rewrite orb_true_r. }
  split; [done|]. intros c r ->. by eapply terminator_not_digit.
Qed.

Lemma id_here_digits ds tail :
  ds <> "" -> all_digits ds = true -> suffix_tail tail = true ->
  id_here (ds +:+ tail) = Some ds.
Proof.
  intros Hne Hds Htail. destruct (suffix_tail_terminator tail Htail) as [Ht Hd].
  unfold id_here. destruct (digits_prefix_app ds tail Hds Hd) as [-> ->].
  rewrite Ht. by destruct ds.
Qed.

(** From a digit on, a prefix without terminated digit leads into the text
    behind it: the run of digits it starts is not followed by a terminator. *)
Lemma after_digits_unterminated p d x :
  terminator p = false -> terminated_digit p = false ->
  terminator (after_digits (p +:+ String d x)) = false.
Proof.
  induction p as [|c p IH]; intros Ht Hp; [done|].
  rewrite app_String. simpl.
  simpl in Hp. apply orb_false_iff in Hp as [Hc Hp].
  destruct (Py.is_digit c) eqn:Ec.
  - apply IH; [|done]. by destruct (terminator p).
  - unfold terminator in *. apply orb_false_iff in Ht as [-> _].
    cbn. by destruct p.
Qed.

Lemma id_here_unterminated p d x :
  p <> "" -> terminated_digit p = false ->
  id_here (p +:+ String d x) = None.
Proof.
  intros Hne Hp. destruct p as [|c p]; [done|].
  unfold id_here. rewrite app_String. simpl.
  destruct (Py.is_digit c) eqn:Ec; [|done].
  simpl in Hp. rewrite Ec in Hp. apply orb_false_iff in Hp as [Ht Hp].
  by rewrite after_digits_unterminated.
Qed.

(** The numeric suffix is found when no digit in front of it is
    terminated. *)
Lemma find_id_suffix pre ds tail :
  ds <> "" -> all_digits ds = true -> suffix_tail tail = true ->
  terminated_digit pre = false ->
  find_id (pre +:+ ds +:+ tail) = Some ds.
Proof.
  intros Hne Hds Htail. pose proof (id_here_digits ds tail Hne Hds Htail) as Hhere.
  destruct ds as [|d x]; [done|]. simpl in Hds.
  apply andb_true_iff in Hds as [Hd _].
  destruct (digit_not_terminator d Hd) as (_ & _ & Hdash).
  rewrite app_String in *.
  induction pre as [|c pre IH]; intros Hpre.
  - rewrite app_EmptyString. cbn [find_id id_at]. by rewrite Hdash, Hhere.
  - rewrite app_String. cbn [find_id id_at].
    assert (Hrest : terminated_digit pre = false).
    { simpl in Hpre. by apply orb_false_iff in Hpre as [_ ?]. }
    rewrite <- (app_String c pre), (id_here_unterminated (String c pre)) by done.
    destruct (Ascii.eqb "-" c).
    + destruct pre as [|c' pre'].
      * rewrite app_EmptyString, Hhere. done.
      * rewrite (id_here_unterminated (String c' pre')) by done. by apply IH.
    + by apply IH.
Qed.

Lemma terminated_run ds rest :
  ds <> "" -> all_digits ds = true -> terminator rest = true ->
  terminated_digit (ds +:+ rest) = true.
Proof.
  induction ds as [|c ds IH]; intros Hne Hds Ht; [done|].
  rewrite app_String. simpl. simpl in Hds.
  apply andb_true_iff in Hds as [Hc Hds]. rewrite Hc.
  destruct ds as [|c' ds'].
  - rewrite app_EmptyString, Ht. done.
  - rewrite IH by done. apply orb_true_r.
Qed.

Lemma id_here_Some s ds :
  id_here s = Some ds ->
  ds <> "" /\ all_digits ds = true /\ terminated_digit s = true.
Proof.
  unfold id_here. intros H.
  pose proof (digits_prefix_all s) as Hall.
  destruct (digits_prefix s) as [|c ds'] eqn:E; [done|].
  destruct (terminator (after_digits s)) eqn:Et; [|done].
  injection H as <-. split; [done|]. split; [done|].
  rewrite (digits_split s), E. by apply terminated_run.
Qed.

Lemma id_at_Some s ds :
  id_at s = Some ds ->
  ds <> "" /\ all_digits ds = true /\ terminated_digit s = true.
Proof.
  destruct s as [|c s]; [done|]. cbn [id_at].
  destruct (Ascii.eqb "-" c); [|apply id_here_Some].
  intros H. apply id_here_Some in H as (? & ? & Ht).
  repeat split; try done. simpl. rewrite Ht. apply orb_true_r.
Qed.

Lemma find_id_Some s ds :
  find_id s = Some ds ->
  ds <> "" /\ all_digits ds = true /\ terminated_digit s = true.
Proof.
  induction s as [|c s IH]; cbn [find_id].
  - destruct (id_at "") eqn:E; [|done]. intros [= <-]. by apply id_at_Some.
  - destruct (id_at (String c s)) eqn:E.
    + intros [= <-]. by apply id_at_Some.
    + intros H. destruct (IH H) as (? & ? & Ht).
      repeat split; try done. simpl. rewrite Ht. apply orb_true_r.
Qed.

Lemma find_id_terminated s :
  terminated_digit s = true -> is_Some (find_id s).
Proof.
  induction s as [|c s IH]; [done|]. cbn [find_id terminated_digit]. intros H.
  destruct (id_at (String c s)) eqn:E; [by eexists|].
  apply orb_true_iff in H as [H|H]; [|by apply IH].
  apply andb_true_iff in H as [Hc Ht]. exfalso.
  destruct (digit_not_terminator c Hc) as (_ & _ & Hdash).
  cbn [id_at] in E. rewrite Hdash in E.
  assert (Hsplit : digits_prefix s = "" /\ after_digits s = s).
  { destruct s as [|a r]; [done|].
    simpl. by rewrite (terminator_not_digit a r Ht). }
  unfold id_here in E. simpl in E. rewrite Hc in E.
  destruct Hsplit as [_ Hs]. rewrite Hs, Ht in E. done.
Qed.

(** The pattern finds no match exactly when no digit is terminated. *)
Lemma find_id_None s : find_id s = None <-> terminated_digit s = false.
Proof.
  split.
  - intros H. destruct (terminated_digit s) eqn:E; [|done].
    destruct (find_id_terminated s E) as [ds Hds]. congruence.
  - intros H. destruct (find_id s) as [ds|] eqn:E; [|done].
    apply find_id_Some in E as (_ & _ & Ht). congruence.
Qed.

(** C9, as the code has it: the [id] of a job is the first run of digits in
    its url that a [/] or a [?] follows or that ends the url.  It is the
    numeric suffix of a url that ends in one, the digits optionally followed
    by [/] or by a [?] query, when no digit in front of the suffix is
    terminated in that way; it is never empty.  When the pattern finds no
    match, which is when no digit of the url is terminated, reading [id]
    raises the [ValueError] that names the url. *)
Theorem job_id_numeric_suffix (self : Job.t) :
  (forall pre digits tail,
     Job.url self = pre +:+ digits +:+ tail ->
     digits <> "" -> all_digits digits = true -> suffix_tail tail = true ->
     terminated_digit pre = false ->
     Job.id self = Return (Some digits))
  /\ (forall id, Job.id self = Return id ->
        exists digits,
          id = Some digits /\ digits <> "" /\ all_digits digits = true)
  /\ (re.search job_id_pattern (Job.url self) = None
      <-> terminated_digit (Job.url self) = false)
  /\ (re.search job_id_pattern (Job.url self) = None ->
      Job.id self
      = Raise (ValueError ("Could not parse job ID from URL: " +:+ Job.url self))).
Proof.
  unfold Job.id. rewrite search_job_id_pattern. repeat split.
  - intros pre digits tail -> Hne Hds Htail Hpre.
    by rewrite find_id_suffix.
  - intros id. destruct (find_id (Job.url self)) as [ds|] eqn:E; [|done].
    cbn. intros [= <-]. apply find_id_Some in E as (? & ? & _). by exists ds.
  - intros H. apply find_id_None. by destruct (find_id (Job.url self)).
  - intros H. apply find_id_None in H. by rewrite H.
  - intros H. by destruct (find_id (Job.url self)).
Qed.

(** ** Floats

    The quotient of two integers is finite when the dividend is below
    [2^1023] in absolute value: [SFdiv] rounds a quotient of at most that
    size, and rounding does not reach [2^1024]. *)

Module float_facts.
Import SpecFloat.

Lemma digits2_size p : digits2_pos p = Pos.size p.
Proof. induction p; simpl; congruence. Qed.

Lemma Zdigits2_nonneg m : 0 <= Zdigits2 m.
Proof. destruct m; simpl; lia. Qed.

(* m < 2^k -> digits m <= k *)
Lemma Zdigits2_le m k : 0 <= m < 2 ^ k -> 0 <= k -> Zdigits2 m <= k.
Proof.
  intros [Hm Hlt] Hk. destruct m as [|p|p]; cbn [Zdigits2]; [lia| |lia].
  rewrite digits2_size.
  pose proof (Pos.size_le p) as Hle.
  assert (H2 : 2 ^ Z.pos (Pos.size p) <= 2 * Z.pos p).
  { rewrite <- Pos2Z.inj_pow. change (2 * Z.pos p) with (Z.pos p~0). lia. }
  assert (2 ^ Z.pos (Pos.size p) < 2 ^ (k + 1)).
  { rewrite Z.pow_add_r by lia. lia. }
  apply Z.pow_lt_mono_r_iff in H; lia.
Qed.

Lemma Zdigits2_gt m : 0 <= m -> m < 2 ^ Zdigits2 m.
Proof.
  intros Hm. destruct m as [|p|p]; cbn [Zdigits2]; [simpl; lia| |lia].
  rewrite digits2_size. pose proof (Pos.size_gt p).
  rewrite <- Pos2Z.inj_pow. lia.
Qed.

Lemma iter_pos_nat {A} (f : A -> A) p x : iter_pos f p x = Nat.iter (Pos.to_nat p) f x.
Proof.
  revert x. induction p as [p IH|p IH|]; intros x; cbn [iter_pos].
  - rewrite !IH. rewrite Pos2Nat.inj_xI.
    replace (S (2 * Pos.to_nat p))%nat with (Pos.to_nat p + (Pos.to_nat p + 1))%nat by lia.
    rewrite !Nat.iter_add. reflexivity.
  - rewrite !IH. rewrite Pos2Nat.inj_xO.
    replace (2 * Pos.to_nat p)%nat with (Pos.to_nat p + Pos.to_nat p)%nat by lia.
    rewrite Nat.iter_add. reflexivity.
  - reflexivity.
Qed.

Lemma shr_1_digits r : 0 <= shr_m r ->
  0 <= shr_m (shr_1 r) /\ Zdigits2 (shr_m (shr_1 r)) = Z.max 0 (Zdigits2 (shr_m r) - 1).
Proof.
  destruct r as [m r s]. simpl. intros Hm.
  destruct m as [|[p|p|]|p]; cbn [shr_1 shr_m Zdigits2 digits2_pos];
    rewrite ?Pos2Z.inj_succ; lia.
Qed.

Lemma shr_iter_digits n r : 0 <= shr_m r ->
  0 <= shr_m (Nat.iter n shr_1 r)
  /\ Zdigits2 (shr_m (Nat.iter n shr_1 r)) = Z.max 0 (Zdigits2 (shr_m r) - Z.of_nat n).
Proof.
  intros Hm. induction n as [|n [IH1 IH2]].
  - simpl. pose proof (Zdigits2_nonneg (shr_m r)). lia.
  - rewrite Nat.iter_succ. destruct (shr_1_digits _ IH1) as [H1 H2].
    split; [done|]. rewrite H2, IH2. lia.
Qed.

Lemma round_nearest_even_bounds m l : 0 <= m -> m <= round_nearest_even m l <= m + 1.
Proof. intros Hm. destruct l as [|[| |]]; cbn; try lia. destruct (Z.even m); lia. Qed.

Lemma shr_fexp_bounds m e l (B : Z) :
  0 <= m -> Zdigits2 m + e <= B ->
  let r := shr_fexp 53 1024 m e l in
  0 <= shr_m (fst r)
  /\ snd r = Z.max e (fexp 53 1024 (Zdigits2 m + e))
  /\ Zdigits2 (shr_m (fst r)) + snd r <= Z.max B (snd r).
Proof.
  intros Hm HB. unfold shr_fexp, shr.
  set (n := fexp 53 1024 (Zdigits2 m + e) - e).
  assert (Hrec : shr_m (shr_record_of_loc m l) = m) by (by destruct l as [|[| |]]).
  destruct n as [|p|p] eqn:En; cbn [fst snd]; rewrite ?Hrec.
  - split; [done|]. split; lia.
  - rewrite iter_pos_nat.
    destruct (shr_iter_digits (Pos.to_nat p) (shr_record_of_loc m l)) as [H1 H2];
      [by rewrite Hrec|].
    rewrite Hrec in H2. split; [done|]. split; [lia|].
    rewrite H2. rewrite positive_nat_Z. lia.
  - split; [done|]. split; lia.
Qed.

Lemma binary_round_aux_finite sx m e l :
  0 <= m -> e <= 0 -> Zdigits2 m + e <= 1023 ->
  match binary_round_aux 53 1024 sx m e l with
  | S754_infinity _ | S754_nan => False
  | _ => True
  end.
Proof.
  intros Hm He HB. unfold binary_round_aux.
  pose proof (shr_fexp_bounds m e l 1023 Hm HB) as H1. cbn zeta in H1.
  destruct (shr_fexp 53 1024 m e l) as [mrs1 e1]. cbn [fst snd] in H1.
  destruct H1 as (Hm1 & He1 & HB1).
  pose proof (round_nearest_even_bounds (shr_m mrs1) (loc_of_shr_record mrs1) Hm1) as Hr.
  set (m2 := round_nearest_even (shr_m mrs1) (loc_of_shr_record mrs1)) in *.
  assert (HD2 : Zdigits2 m2 <= Zdigits2 (shr_m mrs1) + 1).
  { apply Zdigits2_le; [|pose proof (Zdigits2_nonneg (shr_m mrs1)); lia].
    pose proof (Zdigits2_gt (shr_m mrs1) Hm1).
    rewrite Z.pow_add_r; pose proof (Zdigits2_nonneg (shr_m mrs1)); lia. }
  assert (Hfexp : forall x, fexp 53 1024 x = Z.max (x - 53) (-1074)) by reflexivity.
  assert (He1' : e1 <= 970) by (rewrite He1, Hfexp; lia).
  pose proof (shr_fexp_bounds m2 e1 loc_Exact 1024 ltac:(lia) ltac:(lia)) as H2.
  cbn zeta in H2.
  destruct (shr_fexp 53 1024 m2 e1 loc_Exact) as [mrs2 e2]. cbn [fst snd] in H2.
  destruct H2 as (Hm2 & He2 & _).
  destruct (shr_m mrs2) as [|p|p]; [done| |lia].
  replace (e2 <=? 1024 - 53) with true; [done|].
  symmetry. apply Z.leb_le. rewrite He2, Hfexp. lia.
Qed.

Lemma SFdiv_int_finite sx sy mx my :
  Z.pos mx < 2 ^ 1023 ->
  match SFdiv 53 1024 (S754_finite sx mx 0) (S754_finite sy my 0) with
  | S754_infinity _ | S754_nan => False
  | _ => True
  end.
Proof.
  intros Hmx. unfold SFdiv, SFdiv_core_binary.
  set (d1 := Zdigits2 (Z.pos mx)). set (d2 := Zdigits2 (Z.pos my)).
  assert (Hfexp : forall x, fexp 53 1024 x = Z.max (x - 53) (-1074)) by reflexivity.
  rewrite !Z.add_0_r, Z.sub_0_r.
  set (e' := Z.min (fexp 53 1024 (d1 - d2)) 0).
  assert (He' : e' <= 0) by (unfold e'; lia).
  assert (Hd1 : 0 <= d1 <= 1023).
  { split; [apply Zdigits2_nonneg|]. apply Zdigits2_le; lia. }
  assert (Hm1 : Z.pos mx < 2 ^ d1) by (apply Zdigits2_gt; lia).
  set (m' := match 0 - e' with
             | Z.pos _ => Z.shiftl (Z.pos mx) (0 - e')
             | Z0 => Z.pos mx
             | Z.neg _ => 0
             end).
  assert (Hm' : 0 <= m' < 2 ^ (d1 - e')).
  { unfold m'. destruct (0 - e') as [|p|p] eqn:E.
    - replace (d1 - e') with d1 by lia. lia.
    - rewrite Z.shiftl_mul_pow2 by lia. rewrite <- E.
      replace (d1 - e') with (d1 + (0 - e')) by lia.
      rewrite Z.pow_add_r by lia.
      assert (0 < 2 ^ (0 - e')) by (apply Z.pow_pos_nonneg; lia). nia.
    - lia. }
  pose proof (Z_div_mod m' (Z.pos my) ltac:(lia)) as Hdiv.
  destruct (Z.div_eucl m' (Z.pos my)) as [q r]. destruct Hdiv as [Hq Hr].
  apply binary_round_aux_finite; [nia|done|].
  assert (Zdigits2 q <= d1 - e'); [|lia].
  apply Zdigits2_le; [|lia]. nia.
Qed.
End float_facts.

Lemma truediv_Return a b :
  b <> 0 -> - 2 ^ 1023 < a < 2 ^ 1023 ->
  exists q n, Py.truediv a b = Return q /\ Py.int_of_float q = Return n.
Proof.
  intros Hb Ha. unfold Py.truediv.
  destruct (Z.eqb_spec b 0) as [|_]; [done|].
  destruct a as [|p|p], b as [|p'|p']; try done;
    cbn [Py.float_of_int]; try (by eexists _, _).
  all: match goal with
       | |- context [SpecFloat.SFdiv 53 1024 (SpecFloat.S754_finite ?sx ?mx 0)
                       (SpecFloat.S754_finite ?sy ?my 0)] =>
           pose proof (float_facts.SFdiv_int_finite sx sy mx my ltac:(lia)) as H;
           destruct (SpecFloat.SFdiv 53 1024 (SpecFloat.S754_finite sx mx 0)
                       (SpecFloat.S754_finite sy my 0));
           try done; by eexists _, _
       end.
Qed.

(** [int(age.total_seconds())] has a value for every [timedelta]. *)
Lemma timedelta_seconds (a : timedelta) :
  timedelta_in_range a ->
  exists secs, total_seconds a ≫= Py.int_of_float = Return secs.
Proof.
  intros (Hd & Hs & Hu). unfold total_seconds.
  assert (H67 : 2 ^ 67 <= 2 ^ 1023) by (apply Z.pow_le_mono_r; lia).
  assert (E67 : 2 ^ 67 = 147573952589676412928) by reflexivity.
  destruct (truediv_Return ((days a * 86400 + seconds a) * 10 ^ 6 + microseconds a)
              (10 ^ 6)) as (q & n & Hq & Hn); [done|lia|].
  rewrite Hq. cbn. by exists n.
Qed.

(** ** models.py *)

(** C7, as the code has it: the parameters of a filter are [keywords] when
    the title is set, [location] always, [f_JT], [f_E] and [f_WT] when the
    respective sequence is set, with its codes joined by commas in the given
    order, [f_JIYN] with the value [true] when [few_applicants] is [True],
    and [f_TPR] with [r] and the seconds of the age when the age is set;
    there is no other key, [start] in particular. *)
Theorem to_linkedin_params_keys (self : JobFilter) :
  (forall a, age self = Some a -> timedelta_in_range a) ->
  exists params,
    to_linkedin_params self = Return params
    /\ params !! "keywords" = title self
    /\ params !! "location" = Some (location self)
    /\ params !! "f_JT"
       = (fun l => Py.join "," (EmploymentType.value <$> l))
           <$> employment_types self
    /\ params !! "f_E"
       = (fun l =>
            Py.join "," ((fun x => Py.str_of_int (ExperienceLevel.value x)) <$> l))
           <$> experience_levels self
    /\ params !! "f_WT"
       = (fun l => Py.join "," ((fun x => Py.str_of_int (WorkMode.value x)) <$> l))
           <$> work_modes self
    /\ params !! "f_JIYN"
       = match few_applicants self with
         | Some true => Some "true"
         | _ => None
         end
    /\ match age self with
       | Some a =>
           exists secs,
             total_seconds a ≫= Py.int_of_float = Return secs
             /\ params !! "f_TPR" = Some ("r" +:+ Py.str_of_int secs)
       | None => params !! "f_TPR" = None
       end
    /\ (forall k,
          k ∉ ["keywords"; "location"; "f_JT"; "f_E"; "f_WT"; "f_JIYN"; "f_TPR"] ->
          params !! k = None)
    /\ params !! "start" = None.
Proof.
  intros Hage. unfold to_linkedin_params.
  destruct self as [t loc ets els wms few a]. cbn [title location
    employment_types experience_levels work_modes few_applicants age] in *.
  assert (Hsecs : forall d, a = Some d ->
    exists secs, total_seconds d ≫= Py.int_of_float = Return secs).
  { intros d ->. by apply timedelta_seconds, Hage. }
  clear Hage.
  destruct a as [d|]; [destruct (Hsecs d eq_refl) as [secs Hd]; rewrite Hd|];
    destruct t, ets, els, wms, few as [[]|];
    (eexists; split; [reflexivity|]);
    repeat match goal with |- _ /\ _ => split end;
    try (by simplify_map_eq);
    try (exists secs; split; [done|by simplify_map_eq]);
    try (intros k Hk; rewrite !not_elem_of_cons in Hk; destruct_and!;
         by simplify_map_eq).
Qed.

(** ** The requests of [fetch_jobs] *)

Lemma to_linkedin_params_Return (self : JobFilter) :
  (forall a, age self = Some a -> timedelta_in_range a) ->
  exists params, to_linkedin_params self = Return params.
Proof.
  intros Hage. unfold to_linkedin_params.
  destruct (age self) as [a|]; [|by eexists].
  destruct (timedelta_seconds a (Hage a eq_refl)) as [secs ->].
  by eexists.
Qed.

Section PaginationProperties.
Variable session_get :
  nat -> string -> option (gmap string param) -> result Response.
Variable parse_jobs : string -> result (list Job.t).

(** A page task is its request, at the search url with the parameters of
    the filter and [start], and the parse of the body. *)
Lemma _fetch_jobs_page_request filter params (i : nat) start :
  to_linkedin_params filter = Return params ->
  _fetch_jobs_page session_get parse_jobs i filter start
  = (response ←
       session_get i
         "https://www.linkedin.com/jobs-guest/jobs/api/seeMoreJobPostings/search"
         (Some (<["start" := PInt start]> (PStr <$> params)));
     parse_jobs (text response)).
Proof. intros H. unfold _fetch_jobs_page. by rewrite H. Qed.

(** C1: for every filter and every valid [(offset, limit)], [fetch_jobs]
    creates exactly [ceil(limit / 10)] page tasks, at the offsets [offset],
    [offset + 10], ..., in that order, and the task of page [i] issues the
    request of the search url with the parameters of the filter and
    [start = offset + 10 i].  Whatever the order in which the pages finish,
    when each of these requests is answered and each answer parses to its
    list of summaries, the call returns the first [limit] items of the lists
    concatenated in offset order, and these are exactly [limit] items when
    every page holds 10.  The call issues no other request: a session that
    answers these requests in the same way gives the same call. *)
Theorem fetch_jobs_pagination filter offset limit order :
  0 <= offset -> 0 <= limit -> offset + limit <= 1000 ->
  (forall a, age filter = Some a -> timedelta_in_range a) ->
  order ≡ₚ seq 0 (Z.to_nat (ceiling_div limit 10)) ->
  let n := Z.to_nat (ceiling_div limit 10) in
  let r := fetch_jobs session_get parse_jobs filter offset (Some limit) order in
  let url :=
    "https://www.linkedin.com/jobs-guest/jobs/api/seeMoreJobPostings/search" in
  exists params,
    to_linkedin_params filter = Return params
    /\ created r = (fun i : nat => (filter, offset + Z.of_nat i * 10)) <$> seq 0 n
    /\ (forall (responses : list Response) (pages : list (list Job.t)),
          length responses = n -> length pages = n ->
          (forall (i : nat) response,
             responses !! i = Some response ->
             session_get i url
               (Some (<["start" := PInt (offset + Z.of_nat i * 10)]>
                        (PStr <$> params)))
             = Return response) ->
          (forall (i : nat) response page,
             responses !! i = Some response -> pages !! i = Some page ->
             parse_jobs (text response) = Return page) ->
          outcome r = Some (Return (take (Z.to_nat limit) (concat pages)))
          /\ (Forall (fun page => length page = 10%nat) pages ->
              length (take (Z.to_nat limit) (concat pages)) = Z.to_nat limit))
    /\ (forall session_get',
          (forall i : nat, (i < n)%nat ->
             let request :=
               Some (<["start" := PInt (offset + Z.of_nat i * 10)]>
                       (PStr <$> params)) in
             session_get' i url request = session_get i url request) ->
          fetch_jobs session_get' parse_jobs filter offset (Some limit) order
          = r).
Proof.
  intros Ho Hl Hsum Hage Hperm n r url.
  destruct (to_linkedin_params_Return filter Hage) as [params Hparams].
  exists params. split; [done|]. subst r.
  rewrite fetch_jobs_valid by done. cbn [created outcome]. fold n.
  set (starts := (fun i : nat => offset + Z.of_nat i * 10) <$> seq 0 n).
  assert (Hstarts : forall (i : nat) start,
    starts !! i = Some start -> (i < n)%nat /\ start = offset + Z.of_nat i * 10).
  { intros i start. unfold starts. rewrite list_lookup_fmap.
    destruct (decide (i < n)%nat) as [Hi|Hi].
    - rewrite lookup_seq_lt by done. cbn. by intros [= <-].
    - by rewrite lookup_seq_ge by lia. }
  split.
  { unfold starts. rewrite <- list_fmap_compose. reflexivity. }
  split.
  - intros responses pages Hlenr Hlen Hresp Hparse. split.
    + assert (Htasks :
        imap (fun i start =>
                _fetch_jobs_page session_get parse_jobs i filter start) starts
        = Return <$> pages).
      { apply list_eq. intros i. rewrite list_lookup_imap, list_lookup_fmap.
        unfold starts. rewrite list_lookup_fmap.
        destruct (decide (i < n)%nat) as [Hi|Hi].
        - rewrite lookup_seq_lt by done. cbn.
          destruct (lookup_lt_is_Some_2 pages i ltac:(lia)) as [page Hp].
          destruct (lookup_lt_is_Some_2 responses i ltac:(lia)) as [resp Hr].
          rewrite Hp. cbn. f_equal.
          rewrite (_fetch_jobs_page_request filter params) by done.
          fold url. rewrite (Hresp i resp Hr). cbn.
          by apply (Hparse i).
        - rewrite lookup_seq_ge by lia. cbn.
          rewrite (lookup_ge_None_2 pages i) by lia. reflexivity. }
      rewrite Htasks, gather_facts.gather_spec.
      2:{ rewrite length_fmap, Hlen. exact Hperm. }
      rewrite gather_facts.first_failure_None.
      2:{ intros i _ e. rewrite list_lookup_fmap.
          destruct (pages !! i); cbn; congruence. }
      rewrite gather_facts.results_Return. cbn.
      unfold Py.slice_to. replace (limit <? 0) with false
        by (symmetry; apply Z.ltb_ge; lia).
      reflexivity.
    + intros Hfull. rewrite length_take.
      rewrite (length_concat_pages pages 10) by done. rewrite Hlen.
      pose proof (ceiling_div_least limit 10 ltac:(lia)) as [Hc _].
      assert (0 <= ceiling_div limit 10)
        by (unfold ceiling_div; apply Z.div_pos; lia).
      unfold n. lia.
  - intros session_get' Hsame.
    rewrite fetch_jobs_valid by done. fold n starts.
    assert (Htasks :
      imap (fun i start =>
              _fetch_jobs_page session_get' parse_jobs i filter start) starts
      = imap (fun i start =>
                _fetch_jobs_page session_get parse_jobs i filter start) starts).
    { apply imap_ext. intros i start Hi.
      apply Hstarts in Hi as [Hi ->].
      unfold _fetch_jobs_page. rewrite Hparams. cbn.
      fold url. by rewrite (Hsame i Hi). }
    by rewrite Htasks.
Qed.

End PaginationProperties.

(** * The theorems on the examples *)

Lemma curl_cffi_ok_2xx s : 200 <= s < 300 -> curl_cffi_ok s = true.
Proof.
  intros H. unfold curl_cffi_ok. apply andb_true_iff.
  split; [apply Z.leb_le|apply Z.ltb_lt]; lia.
Defined.

Lemma curl_cffi_ok_from_400 s : 400 <= s -> curl_cffi_ok s = false.
Proof.
  intros H. unfold curl_cffi_ok. apply andb_false_iff. right.
  apply Z.ltb_ge. lia.
Defined.

(** Three pages for 25 jobs from offset 5, finishing in the order 2, 0, 1:
    the jobs of the page at 5, then of the page at 15, then five of the page
    at 25. *)
Lemma fetch_jobs_pagination_25 :
  let r := fetch_jobs start_session_get ten_jobs JobFilter_default 5 (Some 25)
             [2; 0; 1]%nat in
  let page start := replicate 10 (job_of_url start) in
  created r
  = [(JobFilter_default, 5); (JobFilter_default, 15); (JobFilter_default, 25)]
  /\ outcome r = Some (Return (take 25 (concat [page "5"; page "15"; page "25"])))
  /\ length (take 25 (concat [page "5"; page "15"; page "25"])) = 25%nat.
Proof.
  intros r page.
  destruct (fetch_jobs_pagination start_session_get ten_jobs JobFilter_default
              5 25 [2; 0; 1]%nat)
    as (params & Hparams & Hcreated & Hpages & _);
    [lia|lia|lia|discriminate|vm_compute; solve_Permutation|].
  injection Hparams as <-.
  split; [exact Hcreated|].
  destruct (Hpages
              [ {| status_code := 200; text := "5" |};
                {| status_code := 200; text := "15" |};
                {| status_code := 200; text := "25" |} ]
              [page "5"; page "15"; page "25"])
    as [Hout Hlen]; [reflexivity|reflexivity| | |].
  - intros i resp Hr.
    destruct i as [|[|[|i]]]; [| | |discriminate];
      injection Hr as <-; vm_compute; reflexivity.
  - intros i resp p Hr Hp.
    destruct i as [|[|[|i]]]; [| | |discriminate];
      injection Hr as <-; injection Hp as <-; reflexivity.
  - split; [exact Hout|]. apply Hlen. repeat constructor.
Defined.


(** An omitted limit is one page, not everything up to the ceiling. *)
Lemma fetch_jobs_limit_omitted :
  let omitted :=
    call_fetch_jobs echo_session_get ten_jobs JobFilter_default (Passed 0)
      Omitted [0%nat] in
  let remaining :=
    fetch_jobs echo_session_get ten_jobs JobFilter_default 0
      (Some (LINKEDIN_JOB_QUERY_LIMIT - 0)) [0%nat] in
  created omitted = [(JobFilter_default, 0)]
  /\ length (created remaining) = 100%nat
  /\ omitted <> remaining.
Proof.
  intros omitted remaining.
  assert (H1 : created omitted = [(JobFilter_default, 0)]) by reflexivity.
  assert (H2 : length (created remaining) = 100%nat) by (vm_compute; reflexivity).
  split; [exact H1|]. split; [exact H2|].
  intros Heq. rewrite <- Heq, H1 in H2. discriminate.
Qed.

(** [limit=None] from offset 995: the one page left. *)
Lemma fetch_jobs_limit_None_995 :
  created (call_fetch_jobs echo_session_get ten_jobs JobFilter_default
             (Passed 995) (Passed None) [0%nat])
  = [(JobFilter_default, 995)].
Proof.
  destruct (fetch_jobs_limit_None echo_session_get ten_jobs JobFilter_default
              (Passed 995) [0%nat]) as (_ & _ & H).
  rewrite H; [reflexivity|]. cbn. lia.
Defined.

(** 20 jobs from offset 990 exceed the ceiling. *)
Lemma fetch_jobs_validation_990 :
  exists msg,
    fetch_jobs echo_session_get ten_jobs JobFilter_default 990 (Some 20)
      [0; 1]%nat
    = {| created := []; outcome := Some (Raise (ValueError msg)) |}.
Proof.
  apply fetch_jobs_validation. right. exists 20. split; [reflexivity|]. lia.
Defined.



(** 503 three times, then 200: the response after the sleeps 1, 2 and 4. *)
Lemma request_backoff_503 :
  let run := request curl_cffi_ok three_503_then_200 no_proxies None in
  run.2 = Return (Some success)
  /\ attempts_of run.1.2 = [0; 1; 2; 3]%nat
  /\ sleeps_of run.1.2 = [1; 2; 4]
  /\ foldr Z.add 0 (sleeps_of run.1.2) = 1 + 2 + 4.
Proof.
  intros run.
  destruct (request_backoff curl_cffi_ok three_503_then_200 curl_cffi_ok_2xx
              curl_cffi_ok_from_400 no_proxies None) as (_ & _ & H).
  apply (H unavailable unavailable unavailable success); try reflexivity.
  cbn. lia.
Defined.

(** Two ids, the second of which fails to parse: the call fails with its
    error although the first parses. *)
Lemma fetch_jobs_details_second_fails :
  let r := fetch_jobs_details echo_session_get detail_soup ["1"; "2"]
             [1; 0]%nat in
  is_Return (_fetch_job_details echo_session_get detail_soup 0 "1") = true
  /\ outcome r = Some (Raise (ValueError "Could not parse employment type")).
Proof.
  intros r. split; [reflexivity|].
  destruct (fetch_jobs_details_all_or_nothing echo_session_get detail_soup
              ["1"; "2"] [1; 0]%nat) as (_ & _ & H);
    [discriminate|vm_compute; solve_Permutation|].
  destruct (H 1%nat "2" (ValueError "Could not parse employment type"))
    as (pre & j & post & id' & e' & _ & _ & _ & _ & Hout & Honly);
    [reflexivity|reflexivity|].
  rewrite Honly in Hout; [exact Hout|].
  intros k idk Hk Hidk. destruct k as [|[|k]]; simplify_eq/=.
  eexists. reflexivity.
Defined.


(** [few_applicants=False] is a field that is set and has no key. *)
Lemma to_linkedin_params_few_applicants_False :
  is_Some (few_applicants many_applicants)
  /\ exists params,
       to_linkedin_params many_applicants = Return params
       /\ params !! "f_JIYN" = None
       /\ dom params = {[ "location" ]}.
Proof.
  split; [by eexists|]. eexists. split; [reflexivity|]. split; [reflexivity|].
  vm_compute. reflexivity.
Qed.

(** The parameters of the filter with every field set. *)
Lemma to_linkedin_params_full_filter :
  exists params,
    to_linkedin_params full_filter = Return params
    /\ params !! "keywords" = Some "engineer"
    /\ params !! "location" = Some "Berlin"
    /\ params !! "f_JT" = Some "F,C"
    /\ params !! "f_E" = Some "3"
    /\ params !! "f_WT" = Some "2,3"
    /\ params !! "f_JIYN" = Some "true"
    /\ params !! "f_TPR" = Some "r86405"
    /\ params !! "start" = None.
Proof.
  destruct (to_linkedin_params_keys full_filter)
    as (params & Hp & Hk & Hl & Hjt & He & Hwt & Hji & (secs & Hs & Htpr) & _ & Hstart).
  { intros a [= <-]. unfold timedelta_in_range. cbn. lia. }
  exists params. split; [exact Hp|].
  assert (secs = 86405) as -> by (vm_compute in Hs; congruence).
  repeat split; done.
Defined.

(** A mapped employment type is found, and the page fails all the same. *)
Lemma parse_job_details_mapped_entry_lost :
  let html := two_employment_types in
  forallb parseable (find_all_criteria html) = true
  /\ is_Return (description_block html) = true
  /\ is_Return (applicant_count_block html) = true
  /\ "Full-time" ∈ values_of "Employment type" (find_all_criteria html)
  /\ STR_TO_EMPLOYMENT_TYPE_MAP !! "Full-time" = Some EmploymentType.FULL_TIME
  /\ parse_job_details (fun _ => html) ""
     = Raise (ValueError "Could not parse employment type").
Proof.
  repeat split; try reflexivity. vm_compute. apply list_elem_of_here.
Qed.

(** A page with an unknown seniority parses, without experience level. *)
Lemma parse_job_details_unknown_seniority :
  parse_job_details (fun _ => unknown_seniority) ""
  = Return {|
      description := "<p>We are hiring.</p>";
      employment_type := EmploymentType.CONTRACT;
      experience_level := None;
      applicant_count := 200
    |}.
Proof.
  destruct (parse_job_details_criteria (fun _ => unknown_seniority) "")
    as [H _]; [reflexivity|].
  apply (H "<p>We are hiring.</p>" 200 "Contract" EmploymentType.CONTRACT);
    reflexivity.
Defined.

(** The last of two employment types is unmapped. *)
Lemma criteria_last_entry_wins_two :
  criteria_loop (find_all_criteria two_employment_types) None None
  = Return (None, Some ExperienceLevel.ENTRY_LEVEL)
  /\ parse_job_details (fun _ => two_employment_types) ""
     = Raise (ValueError "Could not parse employment type").
Proof.
  destruct (criteria_last_entry_wins (fun _ => two_employment_types) "")
    as (Hloop & Hfail & _); [reflexivity|].
  split.
  - rewrite Hloop. reflexivity.
  - apply (Hfail "<p>We are hiring.</p>" "Volunteer"); reflexivity.
Defined.

(** A url that ends in a numeric suffix and has another id. *)
Lemma job_id_not_the_suffix :
  let pre := "https://www.linkedin.com/jobs/view/2024/engineer-" in
  let digits := "4012345678" in
  let tail := "" in
  Job.url (job_of_url dated_url) = pre +:+ digits +:+ tail
  /\ digits <> ""
  /\ all_digits digits = true
  /\ suffix_tail tail = true
  /\ ends_digit pre = false
  /\ Job.id (job_of_url dated_url) = Return (Some "2024")
  /\ Job.id (job_of_url dated_url) <> Return (Some digits).
Proof.
  repeat split; try reflexivity; discriminate.
Qed.

(** The id of a url of the site. *)
Lemma job_id_view_url :
  Job.id (job_of_url view_url) = Return (Some "4012345678").
Proof.
  destruct (job_id_numeric_suffix (job_of_url view_url)) as [H _].
  apply (H "https://www.linkedin.com/jobs/view/software-engineer-2-at-foo-"
           "4012345678" "?position=1&pageNum=0");
    try reflexivity.
  discriminate.
Defined.

(** * Properties of the rest of the code *)

(** ** Listing pages *)

(** Membership in a list that is written out. *)
Ltac in_list :=
  repeat first [apply list_elem_of_here | apply list_elem_of_further].

Section ListingProperties.
Variable find_all_li : string -> list li_element.
Variable strptime : string -> result (Z * Z * Z).

(** X1: [_parse_job] returns a job exactly when the link with its href, the
    title, the location, the company link with its text and href and the
    date are all found, the three texts are not empty and [strptime] accepts
    the date; the job then carries exactly these values. *)
Theorem _parse_job_Return html job :
  _parse_job strptime html = Return job
  <-> find_full_link html = Some (Some (Job.url job))
      /\ find_title html = Some (Job.title job) /\ Job.title job <> ""
      /\ find_location html = Some (Job.location job) /\ Job.location job <> ""
      /\ find_subtitle html
         = Some (Some (Job.company_title job, Some (Job.company_url job)))
      /\ Job.company_title job <> ""
      /\ exists dt,
           find_listdate html = Some (Some dt)
           /\ strptime dt = Return (Job.posted_at job).
Proof.
  unfold _parse_job. destruct html as [link ti lo sub da]. cbn.
  split.
  - intros H.
    destruct link as [[u|]|]; try done.
    destruct ti as [[|c t]|]; try done.
    destruct lo as [[|c' l]|]; try done.
    destruct sub as [[[[|c'' ct] [h|]]|]|]; try done.
    destruct da as [[dt|]|]; try done.
    cbn in H. destruct (strptime dt) as [d|e] eqn:Ed; [|done].
    cbn in H. injection H as <-. cbn. repeat split; try done. by exists dt.
  - intros (-> & -> & Ht & -> & Hl & -> & Hc & dt & -> & Hd).
    destruct job as [u t l ct cu d]. cbn in *.
    destruct t; [done|]. destruct l; [done|]. destruct ct; [done|].
    cbn. rewrite Hd. reflexivity.
Qed.

(** X2: when [_parse_job] fails, the error is the exception [strptime]
    raised on the date that was found, or a [ValueError] with one of the
    eleven messages that name the missing or empty field; in particular a
    fragment with its link and without the title element fails with
    "Could not find job title", whatever its other fields. *)
Theorem _parse_job_Raise html :
  (forall e,
     _parse_job strptime html = Raise e ->
     (exists dt, find_listdate html = Some (Some dt) /\ strptime dt = Raise e)
     \/ (exists msg, e = ValueError msg /\ msg ∈ _parse_job_messages))
  /\ (forall href,
        find_full_link html = Some (Some href) -> find_title html = None ->
        _parse_job strptime html = Raise (ValueError "Could not find job title")).
Proof.
  unfold _parse_job. destruct html as [link ti lo sub da]. cbn. split.
  - intros e H.
    assert (Hmsg : forall msg, msg ∈ _parse_job_messages ->
      @Raise Job.t (ValueError msg) = Raise e ->
      exists msg, e = ValueError msg /\ msg ∈ _parse_job_messages).
    { intros msg Hin [= <-]. by exists msg. }
    destruct link as [[u|]|];
      [|right; eapply Hmsg; [|exact H]; in_list..].
    destruct ti as [[|c t]|];
      [right; eapply Hmsg; [|exact H]; in_list| |
       right; eapply Hmsg; [|exact H]; in_list].
    destruct lo as [[|c' l]|];
      [right; eapply Hmsg; [|exact H]; in_list| |
       right; eapply Hmsg; [|exact H]; in_list].
    destruct sub as [[[[|c'' ct] h]|]|];
      [right; eapply Hmsg; [|exact H]; in_list| |
       right; eapply Hmsg; [|exact H]; in_list..].
    destruct h as [h|]; [|right; eapply Hmsg; [|exact H]; in_list].
    destruct da as [[dt|]|];
      [|right; eapply Hmsg; [|exact H]; in_list..].
    cbn in H. destruct (strptime dt) as [d|e'] eqn:Ed; [done|].
    cbn in H. injection H as <-. left. by exists dt.
  - by intros href -> ->.
Qed.

Lemma parse_jobs_loop_Return elements : forall acc jobs,
  parse_jobs_loop strptime elements acc = Return jobs
  <-> exists more,
        jobs = acc ++ more
        /\ Forall2 (fun el job =>
                      exists tag, el = Li tag
                                  /\ _parse_job strptime tag = Return job)
             elements more.
Proof.
  induction elements as [|el rest IH]; intros acc jobs; cbn [parse_jobs_loop].
  - split.
    + intros [= <-]. exists []. split; [by rewrite app_nil_r|constructor].
    + intros (more & -> & Hall). apply Forall2_nil_inv_l in Hall as ->.
      by rewrite app_nil_r.
  - destruct el as [shown|tag].
    + split; [done|]. intros (more & _ & Hall).
      apply Forall2_cons_inv_l in Hall as (job & more' & (tag & ? & _) & _ & _).
      done.
    + destruct (_parse_job strptime tag) as [job|e] eqn:Ej; cbn.
      * rewrite IH. split.
        -- intros (more & -> & Hall). exists (job :: more).
           split; [by rewrite <- app_assoc|].
           constructor; [by exists tag|done].
        -- intros (more & -> & Hall).
           apply Forall2_cons_inv_l in Hall
             as (job' & more' & (tag' & [= <-] & Hj) & Hall & ->).
           assert (job' = job) as -> by congruence.
           exists more'. split; [by rewrite <- app_assoc|done].
      * split; [done|]. intros (more & _ & Hall).
        apply Forall2_cons_inv_l in Hall
          as (job' & more' & (tag' & [= <-] & Hj) & _ & _).
        congruence.
Qed.

(** X3: [parse_jobs] returns a list exactly when every [li] of the page is
    a tag that parses, and the list then holds the jobs of the [li]s one for
    one in document order; a page without [li] gives the empty list. *)
Theorem parse_jobs_Return raw jobs :
  parse_jobs find_all_li strptime raw = Return jobs
  <-> Forall2 (fun el job =>
                 exists tag, el = Li tag
                             /\ _parse_job strptime tag = Return job)
        (find_all_li raw) jobs.
Proof.
  unfold parse_jobs. rewrite parse_jobs_loop_Return. split.
  - by intros (more & -> & Hall).
  - intros Hall. by exists jobs.
Qed.

(** X4: [parse_jobs] fails with the error of the first [li] in document
    order that is no tag or does not parse; what follows that [li] plays no
    part. *)
Theorem parse_jobs_first_failure raw pre bad post jobs e :
  find_all_li raw = pre ++ bad :: post ->
  Forall2 (fun el job =>
             exists tag, el = Li tag /\ _parse_job strptime tag = Return job)
    pre jobs ->
  match bad with
  | NotALi shown => e = ValueError ("Could not parse job: " +:+ shown)
  | Li tag => _parse_job strptime tag = Raise e
  end ->
  parse_jobs find_all_li strptime raw = Raise e.
Proof.
  intros Hraw Hpre Hbad. unfold parse_jobs. rewrite Hraw. clear Hraw.
  generalize (@nil Job.t) as acc.
  induction Hpre as [|el job pre jobs (tag & -> & Hj) _ IH]; intros acc; cbn.
  - destruct bad as [shown|tag]; [by subst|]. by rewrite Hbad.
  - rewrite Hj. cbn. apply IH.
Qed.

End ListingProperties.

(** ** Detail pages *)

Lemma lstrip_split s :
  exists pre,
    s = pre +:+ Py.lstrip s
    /\ all_space pre = true
    /\ starts_with_space (Py.lstrip s) = false.
Proof.
  induction s as [|c s (pre & Hs & Hpre & Hstart)]; [by exists ""|].
  cbn [Py.lstrip]. destruct (Py.is_space c) eqn:Ec.
  - exists (String c pre). rewrite app_String, <- Hs. cbn. by rewrite Ec, Hpre.
  - exists "". by cbn.
Qed.

Lemma rstrip_split s :
  exists post,
    s = Py.rstrip s +:+ post
    /\ all_space post = true
    /\ ends_with_space (Py.rstrip s) = false
    /\ (starts_with_space s = false -> starts_with_space (Py.rstrip s) = false).
Proof.
  induction s as [|c s (post & Hs & Hpost & Hend & _)]; [by exists ""|].
  cbn [Py.rstrip]. destruct (Py.rstrip s) as [|a t] eqn:Er.
  - rewrite app_EmptyString in Hs. subst post.
    destruct (Py.is_space c) eqn:Ec.
    + exists (String c s). cbn. by rewrite Ec, Hpost.
    + exists s. by cbn.
  - exists post. rewrite app_String, <- Hs. by cbn.
Qed.

(** [strip] removes spaces at both ends and nothing else. *)
Lemma strip_split s :
  exists pre post,
    s = pre +:+ Py.strip s +:+ post
    /\ all_space pre = true /\ all_space post = true
    /\ starts_with_space (Py.strip s) = false
    /\ ends_with_space (Py.strip s) = false.
Proof.
  unfold Py.strip.
  destruct (lstrip_split s) as (pre & Hs & Hpre & Hstart).
  destruct (rstrip_split (Py.lstrip s)) as (post & Hl & Hpost & Hend & Hkeep).
  exists pre, post. rewrite <- Hl. repeat split; auto.
Qed.

(** X5: the description of a page that parses is the inner markup of the
    description element without the whitespace at its two ends, and with
    nothing else changed; it is not empty and neither starts nor ends with
    whitespace. *)
Theorem parse_job_details_description (BeautifulSoup : string -> Soup) raw jd :
  parse_job_details BeautifulSoup raw = Return jd ->
  exists contents pre post,
    find_markup (BeautifulSoup raw) = Some contents
    /\ contents = pre +:+ description jd +:+ post
    /\ all_space pre = true /\ all_space post = true
    /\ description jd <> ""
    /\ starts_with_space (description jd) = false
    /\ ends_with_space (description jd) = false.
Proof.
  unfold parse_job_details, description_block.
  destruct (find_markup (BeautifulSoup raw)) as [contents|]; [|done].
  destruct (strip_split contents) as (pre & post & Hc & Hpre & Hpost & Hs & He).
  destruct (Py.strip contents) as [|c d] eqn:Ed; [done|].
  cbn. intros H.
  destruct (criteria_loop _ None None) as [[[t|] el]|]; try done.
  cbn in H. destruct (applicant_count_block _) as [n|]; [|done].
  injection H as <-. cbn. by exists contents, pre, post.
Qed.

(** *** The applicant count *)

Lemma first_digits_None s : first_digits s = None <-> has_digit s = false.
Proof.
  induction s as [|c s IH]; [done|]. cbn [first_digits has_digit].
  destruct (Py.is_digit c); [done|]. exact IH.
Qed.

Lemma first_digits_Some s ds :
  first_digits s = Some ds -> ds <> "" /\ all_digits ds = true.
Proof.
  revert ds. induction s as [|c s IH]; intros ds; [done|]. cbn [first_digits].
  destruct (Py.is_digit c) eqn:Ec; [|apply IH].
  intros [= <-]. split.
  - cbn. by rewrite Ec.
  - apply (digits_prefix_all (String c s)).
Qed.

Lemma first_digits_app pre ds rest :
  has_digit pre = false -> ds <> "" -> all_digits ds = true ->
  (forall c r, rest = String c r -> Py.is_digit c = false) ->
  first_digits (pre +:+ ds +:+ rest) = Some ds.
Proof.
  intros Hpre Hne Hds Hrest. induction pre as [|c pre IH].
  - rewrite app_EmptyString. destruct ds as [|d ds]; [done|].
    rewrite app_String. cbn [first_digits].
    cbn in Hds. apply andb_true_iff in Hds as [Hd Hds]. rewrite Hd.
    rewrite <- app_String.
    destruct (digits_prefix_app (String d ds) rest) as [-> _]; [|done..].
    cbn. by rewrite Hd, Hds.
  - rewrite app_String. cbn [first_digits]. cbn in Hpre.
    apply orb_false_iff in Hpre as [-> Hpre]. by apply IH.
Qed.

(** The greedy run stops at the longest run when the continuation accepts
    there. *)
Lemma star_longest {R} s (k : string -> option R) r :
  k (after_digits s) = Some r -> re.star Py.is_digit s k = Some r.
Proof.
  induction s as [|c s IH]; [done|]. cbn [re.star after_digits].
  destruct (Py.is_digit c); [|done]. intros H. by rewrite (IH H).
Qed.

(** [re.search] with the pattern of the applicant count is [first_digits]. *)
Lemma search_applicant_count_pattern s :
  re.search applicant_count_pattern s
  = (fun ds => {| re.group1 := Some ds |}) <$> first_digits s.
Proof.
  unfold applicant_count_pattern.
  induction s as [|c s IH]; [done|].
  cbn [re.search re.re_match re.plus re.accepts first_digits].
  destruct (Py.is_digit c) eqn:Ec; [|exact IH].
  erewrite star_longest; [|reflexivity].
  assert (Hc : re.consumed (String c s) (after_digits s)
               = digits_prefix (String c s)).
  { cbn [digits_prefix]. rewrite Ec.
    rewrite (digits_split s) at 1. rewrite <- app_String.
    apply consumed_app. }
  by rewrite Hc.
Qed.

Lemma int_of_digits_Return ds : forall acc,
  all_digits ds = true -> 0 <= acc ->
  exists n, Py.int_of_digits acc ds = Return n /\ acc <= n.
Proof.
  induction ds as [|c ds IH]; intros acc Hds Hacc; [by exists acc|].
  cbn in Hds. apply andb_true_iff in Hds as [Hc Hds].
  cbn [Py.int_of_digits]. rewrite Hc.
  unfold Py.is_digit in Hc. apply andb_true_iff in Hc as [H1 H2].
  apply Z.leb_le in H1, H2.
  destruct (IH (10 * acc + (Py.code c - 48)) Hds ltac:(lia)) as (n & Hn & Hle).
  exists n. split; [done|lia].
Qed.

Lemma scan_digits_all ds :
  all_digits ds = true -> Py.scan_digits ds = String.length ds.
Proof.
  induction ds as [|c ds IH]; [done|]. cbn.
  intros [Hc Hds]%andb_true_iff. by rewrite Hc, IH.
Qed.

(** [int] on a run of digits: the number they write when they are at most
    4300, the error of the limit beyond. *)
Lemma int_of_str_digits ds :
  ds <> "" -> all_digits ds = true ->
  if Z.of_nat (String.length ds) <=? Py.int_max_str_digits
  then exists n, Py.int_of_digits 0 ds = Return n /\ 0 <= n
                 /\ Py.int_of_str (Some ds) = Return n
  else Py.int_of_str (Some ds)
       = Raise (ValueError (Py.int_limit_message (String.length ds))).
Proof.
  intros Hne Hds. unfold Py.int_of_str.
  destruct ds as [|c ds]; [done|].
  rewrite (scan_digits_all _ Hds).
  rewrite Z.ltb_antisym.
  destruct (Z.of_nat (String.length (String c ds)) <=? Py.int_max_str_digits);
    [|done].
  destruct (int_of_digits_Return (String c ds) 0 Hds ltac:(lia)) as (n & Hn & Hle).
  by exists n.
Qed.

(** X6: the applicant count is the number that the first run of digits in
    the text of the element writes, whatever follows that run, and it is
    not negative, as long as the run has at most 4300 digits; on a longer
    run [int] refuses the conversion and the block fails with its
    [ValueError].  The block fails with "Could not find applicant count"
    without the element and with "Could not parse applicant count" when the
    text has no digit. *)
Theorem applicant_count_first_integer html :
  (find_num_applicants html = None ->
   applicant_count_block html
   = Raise (ValueError "Could not find applicant count"))
  /\ (forall txt,
        find_num_applicants html = Some txt -> has_digit txt = false ->
        applicant_count_block html
        = Raise (ValueError "Could not parse applicant count"))
  /\ (forall pre ds rest,
        find_num_applicants html = Some (pre +:+ ds +:+ rest) ->
        has_digit pre = false -> ds <> "" -> all_digits ds = true ->
        (forall c r, rest = String c r -> Py.is_digit c = false) ->
        if Z.of_nat (String.length ds) <=? Py.int_max_str_digits
        then exists n,
               Py.int_of_digits 0 ds = Return n /\ 0 <= n
               /\ applicant_count_block html = Return n
        else applicant_count_block html
             = Raise (ValueError (Py.int_limit_message (String.length ds)))).
Proof.
  unfold applicant_count_block. repeat split.
  - by intros ->.
  - intros txt -> Hno. rewrite search_applicant_count_pattern.
    apply first_digits_None in Hno. by rewrite Hno.
  - intros pre ds rest -> Hpre Hne Hds Hrest.
    rewrite search_applicant_count_pattern, first_digits_app by done.
    cbn [fmap option_fmap option_map re.group1].
    exact (int_of_str_digits ds Hne Hds).
Qed.

Lemma criteria_loop_Raise criterias : forall et el e,
  criteria_loop criterias et el = Raise e ->
  exists msg, e = ValueError msg /\ msg ∈ parse_job_details_messages.
Proof.
  induction criterias as [|item rest IH]; intros et el e; [done|].
  cbn [criteria_loop].
  destruct item as [|[k|] [v|]]; try (intros [= <-]; eexists; split;
    [reflexivity|in_list]).
  apply IH.
Qed.

(** X7: every failure of [parse_job_details] is a [ValueError]: with one of
    its seven messages, each of which names what was not found or not
    parsed, or with the message of [int] on a count that the page writes
    with more than 4300 digits; [int] fails in no other case. *)
Theorem parse_job_details_Raise (BeautifulSoup : string -> Soup) raw e :
  parse_job_details BeautifulSoup raw = Raise e ->
  (exists msg, e = ValueError msg /\ msg ∈ parse_job_details_messages)
  \/ (exists txt ds,
        find_num_applicants (BeautifulSoup raw) = Some txt
        /\ first_digits txt = Some ds
        /\ Py.int_max_str_digits < Z.of_nat (String.length ds)
        /\ e = ValueError (Py.int_limit_message (String.length ds))).
Proof.
  unfold parse_job_details. set (html := BeautifulSoup raw).
  destruct (description_block html) as [d|e'] eqn:Ed.
  2:{ intros [= <-]. left. unfold description_block in Ed.
      destruct (find_markup html) as [contents|].
      - destruct (Py.strip contents); simplify_eq.
        eexists; split; [reflexivity|in_list].
      - simplify_eq. eexists; split; [reflexivity|in_list]. }
  cbn. destruct (criteria_loop (find_all_criteria html) None None)
    as [[et el]|e'] eqn:Ec.
  2:{ intros [= <-]. left. by eapply criteria_loop_Raise. }
  cbn. destruct et as [t|].
  2:{ intros [= <-]. left. eexists; split; [reflexivity|in_list]. }
  cbn. destruct (applicant_count_block html) as [n|e'] eqn:En; [done|].
  intros [= <-]. unfold applicant_count_block in En.
  destruct (find_num_applicants html) as [txt|] eqn:Et.
  2:{ simplify_eq. left. eexists; split; [reflexivity|in_list]. }
  rewrite search_applicant_count_pattern in En.
  destruct (first_digits txt) as [ds|] eqn:Ef.
  - pose proof Ef as Hf. apply first_digits_Some in Hf as [Hne Hds].
    pose proof (int_of_str_digits ds Hne Hds) as Hint.
    change (Py.int_of_str (Some ds) = Raise e') in En.
    destruct (Z.of_nat (String.length ds) <=? Py.int_max_str_digits) eqn:El.
    + destruct Hint as (n & _ & _ & Hn). congruence.
    + right. exists txt, ds. apply Z.leb_gt in El.
      repeat split; try done. congruence.
  - cbn in En. simplify_eq. left. eexists; split; [reflexivity|in_list].
Qed.

(** ** The proxy cycle *)

Lemma next_rotation c :
  next c
  = (rotation c 0,
     {| cycle_items := cycle_items c; cycle_pos := S (cycle_pos c) |}).
Proof. unfold next, rotation. by rewrite Nat.add_0_r. Qed.

Lemma rotation_S c k :
  rotation {| cycle_items := cycle_items c; cycle_pos := S (cycle_pos c) |} k
  = rotation c (S k).
Proof. unfold rotation. cbn. by rewrite Nat.add_succ_r. Qed.

Lemma rotation_nonempty c k :
  cycle_items c <> [] -> Forall (fun p => p <> "") (cycle_items c) ->
  String.eqb (rotation c k) "" = false.
Proof.
  intros Hne Hall. unfold rotation.
  assert (Hlt : ((cycle_pos c + k) mod length (cycle_items c)
                 < length (cycle_items c))%nat).
  { apply Nat.mod_upper_bound. by destruct (cycle_items c). }
  destruct (lookup_lt_is_Some_2 _ _ Hlt) as [p Hp]. rewrite Hp. cbn.
  apply String.eqb_neq. eapply (proj1 (Forall_lookup _ _) Hall), Hp.
Qed.

Lemma rotation_empty c k :
  Forall (fun p => p = "") (cycle_items c) -> rotation c k = "".
Proof.
  intros Hall. unfold rotation.
  destruct (cycle_items c !! _) as [p|] eqn:Hp; [|done].
  cbn. eapply (proj1 (Forall_lookup _ _) Hall), Hp.
Qed.

Section ProxyProperties.
Variable ok : Z -> bool.

(** The loop draws one proxy per attempt. *)
Lemma request_loop_cycle transport retries : forall self proxy,
  let run := request_loop ok transport retries self proxy in
  cycle_items (_proxy_cycle run.1.1) = cycle_items (_proxy_cycle self)
  /\ cycle_pos (_proxy_cycle run.1.1)
     = (cycle_pos (_proxy_cycle self) + length (attempts_of run.1.2))%nat
  /\ length (proxies_of run.1.2) = length (attempts_of run.1.2)
  /\ (cycle_items (_proxy_cycle self) <> [] ->
      Forall (fun p => p <> "") (cycle_items (_proxy_cycle self)) ->
      proxies_of run.1.2
      = (fun k => Some (rotation (_proxy_cycle self) k))
          <$> seq 0 (length (attempts_of run.1.2)))
  /\ (Forall (fun p => p = "") (cycle_items (_proxy_cycle self)) ->
      proxies_of run.1.2 = replicate (length (attempts_of run.1.2)) proxy).
Proof.
  induction retries as [|retry rest IH]; intros self proxy.
  { cbn. repeat split; try done; lia. }
  cbn [request_loop]. rewrite next_rotation.
  set (c := _proxy_cycle self).
  set (self1 := {| _proxy_cycle :=
                     {| cycle_items := cycle_items c; cycle_pos := S (cycle_pos c) |} |}).
  set (proxy1 := if String.eqb (rotation c 0) "" then proxy else Some (rotation c 0)).
  assert (Hone : forall res : result (option Response),
    let run : ResilientAsyncSession * list event * result (option Response) :=
      (self1, [Attempt retry proxy1], res) in
    cycle_items (_proxy_cycle run.1.1) = cycle_items c
    /\ cycle_pos (_proxy_cycle run.1.1)
       = (cycle_pos c + length (attempts_of run.1.2))%nat
    /\ length (proxies_of run.1.2) = length (attempts_of run.1.2)
    /\ (cycle_items c <> [] -> Forall (fun p => p <> "") (cycle_items c) ->
        proxies_of run.1.2
        = (fun k => Some (rotation c k)) <$> seq 0 (length (attempts_of run.1.2)))
    /\ (Forall (fun p => p = "") (cycle_items c) ->
        proxies_of run.1.2 = replicate (length (attempts_of run.1.2)) proxy)).
  { intros res. cbn. repeat split; try done; try lia.
    - intros Hne Hall. unfold proxy1. by rewrite rotation_nonempty.
    - intros Hall. unfold proxy1. by rewrite rotation_empty. }
  destruct (attempt ok transport retry) as [resp|err]; [apply Hone|].
  destruct err as [| | | |r|]; try apply Hone.
  destruct (_should_retry_request (RequestsError r) retry); [|apply Hone].
  specialize (IH self1 proxy1). cbn zeta in IH.
  destruct (request_loop ok transport rest self1 proxy1) as [[self' events] res].
  cbn [fst snd] in *. destruct IH as (Hi & Hp & Hl & Hrot & Hkeep).
  change (attempts_of (Attempt retry proxy1 :: Sleep (2 ^ Z.of_nat retry) :: events))
    with (retry :: attempts_of events).
  change (proxies_of (Attempt retry proxy1 :: Sleep (2 ^ Z.of_nat retry) :: events))
    with (proxy1 :: proxies_of events).
  cbn [length]. repeat split.
  - exact Hi.
  - rewrite Hp. cbn. lia.
  - by rewrite Hl.
  - intros Hne Hall. rewrite Hrot by done. cbn [seq fmap list_fmap].
    unfold proxy1. rewrite rotation_nonempty by done. f_equal.
    rewrite <- fmap_S_seq, <- list_fmap_compose.
    apply list_fmap_ext. intros i k _. cbn. f_equal. apply rotation_S.
  - intros Hall. rewrite Hkeep by done. cbn. f_equal.
    + unfold proxy1. by rewrite rotation_empty.
    + f_equal. unfold proxy1. by rewrite rotation_empty.
Qed.

(** X8: a call draws one proxy from the cycle per attempt: afterwards the
    cycle holds the same proxies and stands as many places further as
    attempts were made; when the cycle holds proxies none of which is empty,
    the attempts pass on, in turn, the proxies the cycle yields from where it
    stood, whatever proxy the caller passed. *)
Theorem request_proxy_rotation transport self proxy :
  let run := request ok transport self proxy in
  let c := _proxy_cycle self in
  let n := length (attempts_of run.1.2) in
  cycle_items (_proxy_cycle run.1.1) = cycle_items c
  /\ cycle_pos (_proxy_cycle run.1.1) = (cycle_pos c + n)%nat
  /\ (cycle_items c <> [] -> Forall (fun p => p <> "") (cycle_items c) ->
      proxies_of run.1.2 = (fun k => Some (rotation c k)) <$> seq 0 n).
Proof.
  intros run c n.
  destruct (request_loop_cycle transport (seq 0 (RETRY_COUNT + 1)) self proxy)
    as (H1 & H2 & _ & H3 & _).
  by repeat split.
Qed.

(** X9: the cycle is shared by the calls of a session: in two calls one
    after the other, the attempts of the second go on in the rotation where
    those of the first ended. *)
Theorem request_proxy_rotation_shared transport1 transport2 self proxy1 proxy2 :
  let c := _proxy_cycle self in
  cycle_items c <> [] -> Forall (fun p => p <> "") (cycle_items c) ->
  let run1 := request ok transport1 self proxy1 in
  let run2 := request ok transport2 run1.1.1 proxy2 in
  proxies_of run1.1.2 ++ proxies_of run2.1.2
  = (fun k => Some (rotation c k))
      <$> seq 0 (length (attempts_of run1.1.2) + length (attempts_of run2.1.2)).
Proof.
  intros c Hne Hall run1 run2.
  destruct (request_loop_cycle transport1 (seq 0 (RETRY_COUNT + 1)) self proxy1)
    as (Hi & Hp & _ & Hrot & _).
  change (request_loop ok transport1 (seq 0 (RETRY_COUNT + 1)) self proxy1)
    with run1 in Hi, Hp, Hrot.
  fold c in Hi, Hp, Hrot.
  destruct (request_loop_cycle transport2 (seq 0 (RETRY_COUNT + 1)) run1.1.1 proxy2)
    as (_ & _ & _ & Hrot2 & _).
  change (request_loop ok transport2 (seq 0 (RETRY_COUNT + 1)) run1.1.1 proxy2)
    with run2 in Hrot2.
  rewrite Hi in Hrot2.
  rewrite Hrot, Hrot2 by done. rewrite seq_app, fmap_app. f_equal.
  replace (seq (0 + length (attempts_of run1.1.2)) (length (attempts_of run2.1.2)))
    with (Nat.add (length (attempts_of run1.1.2))
            <$> seq 0 (length (attempts_of run2.1.2)))
    by (rewrite fmap_add_seq; f_equal; lia).
  rewrite <- list_fmap_compose. apply list_fmap_ext. intros i k _.
  cbn [compose]. f_equal. unfold rotation.
  set (c1 := _proxy_cycle run1.1.1) in *. rewrite Hi, Hp.
  do 3 f_equal. lia.
Qed.

(** X10: a session made without proxies, or with an empty list of them,
    leaves the caller's proxy as it is: every attempt passes it on. *)
Theorem request_without_proxies transport proxies proxy :
  proxies = None \/ proxies = Some [] ->
  let run := request ok transport (ResilientAsyncSession_init proxies) proxy in
  proxies_of run.1.2 = replicate (length (attempts_of run.1.2)) proxy.
Proof.
  intros Hp run.
  destruct (request_loop_cycle transport (seq 0 (RETRY_COUNT + 1))
              (ResilientAsyncSession_init proxies) proxy)
    as (_ & _ & _ & _ & H).
  apply H. destruct Hp as [-> | ->]; cbn; by repeat constructor.
Qed.

(** X11: a call never ends with [None]: the loop is always left by the
    [return] or by a [raise]; and its sleeps add up to one less than 2 to the
    power of the number of retries made, 7 at most. *)
Theorem request_total_backoff transport self proxy :
  let run := request ok transport self proxy in
  let retried := (length (attempts_of run.1.2) - 1)%nat in
  run.2 <> Return None
  /\ foldr Z.add 0 (sleeps_of run.1.2) = 2 ^ Z.of_nat retried - 1
  /\ foldr Z.add 0 (sleeps_of run.1.2) <= 7.
Proof.
  intros run retried.
  destruct (request_run ok transport self proxy)
    as (n & Hn & Hsched & _ & Hres & _).
  fold run in Hsched, Hres.
  assert (Ha : attempts_of run.1.2 = seq 0 (S n))
    by (by rewrite <- attempts_of_forget, Hsched, attempts_of_schedule).
  assert (Hs : sleeps_of run.1.2 = (fun j : nat => 2 ^ Z.of_nat j) <$> seq 0 n)
    by (by rewrite <- sleeps_of_forget, Hsched, sleeps_of_schedule).
  assert (Hr : retried = n).
  { unfold retried. rewrite Ha, length_seq. lia. }
  split.
  { rewrite Hres. unfold ended_by. by destruct (attempt ok transport n). }
  rewrite Hr, Hs. unfold RETRY_COUNT in Hn.
  destruct n as [|[|[|[|n]]]]; cbn; try lia.
Qed.

End ProxyProperties.

(** ** More on linkedin_client.py *)

Lemma results_Return_inv {A} (children : list (result A)) vs :
  asyncio.results children = Return vs -> children = Return <$> vs.
Proof.
  revert vs. induction children as [|c cs IH]; intros vs; cbn.
  - by intros [= <-].
  - destruct c as [a|e]; [|done]. cbn.
    destruct (asyncio.results cs) as [l|e] eqn:E; [|done]. cbn.
    intros [= <-]. cbn. f_equal. by apply IH.
Qed.

(** [gather] returns values only when every child ended with one. *)
Lemma gather_Return_inv {A} (children : list (result A)) order vs :
  asyncio.gather children order = Some (Return vs) -> children = Return <$> vs.
Proof.
  unfold asyncio.gather. destruct children as [|c cs]; [by intros [= <-]|].
  generalize (c :: cs) as children. clear c cs. intros children.
  generalize 0%nat as k. induction order as [|i rest IH]; intros k; [done|].
  cbn [asyncio.gather_loop].
  destruct (children !! i) as [[a|e]|]; [|done|apply IH].
  destruct (S k =? length children)%nat; [|apply IH].
  intros [= H]. by apply results_Return_inv.
Qed.

Section MoreClientProperties.
Variable session_get :
  nat -> string -> option (gmap string param) -> result Response.
Variable parse_jobs : string -> result (list Job.t).
Variable BeautifulSoup : string -> Soup.

(** What [fetch_jobs] does once the limit is known. *)
Lemma fetch_jobs_cases filter offset limit order :
  let l := match limit with
           | Some l => l
           | None => LINKEDIN_JOB_QUERY_LIMIT - offset
           end in
  (0 <= offset /\ 0 <= l /\ offset + l <= 1000
   /\ fetch_jobs session_get parse_jobs filter offset limit order
      = fetch_jobs session_get parse_jobs filter offset (Some l) order)
  \/ (exists msg,
        fetch_jobs session_get parse_jobs filter offset limit order
        = {| created := []; outcome := Some (Raise (ValueError msg)) |}).
Proof.
  intros l.
  assert (Heq : fetch_jobs session_get parse_jobs filter offset limit order
                = fetch_jobs session_get parse_jobs filter offset (Some l) order)
    by (by destruct limit).
  rewrite Heq. unfold fetch_jobs.
  destruct (Z.ltb_spec offset 0); [right; by eexists|].
  destruct (Z.ltb_spec l 0); [right; by eexists|]. cbn [orb].
  destruct (Z.ltb_spec LINKEDIN_JOB_QUERY_LIMIT (offset + l));
    [right; by eexists|].
  left. unfold LINKEDIN_JOB_QUERY_LIMIT in *. by repeat split.
Qed.

(** X12: [fetch_jobs] returns a list only on valid arguments and when every
    one of its pages yielded its summaries: the list is then the first
    [limit] items of the pages in offset order, never more than [limit]. *)
Theorem fetch_jobs_Return filter offset limit order jobs :
  outcome (fetch_jobs session_get parse_jobs filter offset limit order)
  = Some (Return jobs) ->
  let l := match limit with
           | Some l => l
           | None => LINKEDIN_JOB_QUERY_LIMIT - offset
           end in
  0 <= offset /\ 0 <= l /\ offset + l <= 1000
  /\ exists pages : list (list Job.t),
       length pages = Z.to_nat (ceiling_div l 10)
       /\ (forall (i : nat) page, pages !! i = Some page ->
             _fetch_jobs_page session_get parse_jobs i filter
               (offset + Z.of_nat i * 10)
             = Return page)
       /\ jobs = take (Z.to_nat l) (concat pages)
       /\ (length jobs <= Z.to_nat l)%nat.
Proof.
  intros H l.
  destruct (fetch_jobs_cases filter offset limit order)
    as [(Ho & Hl & Hsum & Heq)|[msg Hmsg]];
    [|by rewrite Hmsg in H].
  fold l in Ho, Hl, Hsum, Heq. rewrite Heq, fetch_jobs_valid in H by done.
  cbn [outcome] in H.
  set (starts := (fun i : nat => offset + Z.of_nat i * 10)
                   <$> seq 0 (Z.to_nat (ceiling_div l 10))) in H.
  set (tasks := imap (fun i start =>
                  _fetch_jobs_page session_get parse_jobs i filter start) starts) in H.
  destruct (asyncio.gather tasks order) as [[pages|e]|] eqn:Eg; try done.
  apply gather_Return_inv in Eg. cbn in H. injection H as <-.
  assert (Hlen : length pages = Z.to_nat (ceiling_div l 10)).
  { rewrite <- (length_fmap Return pages), <- Eg. unfold tasks, starts.
    by rewrite length_imap, length_fmap, length_seq. }
  repeat split; try done. exists pages. repeat split; try done.
  - intros i page Hp.
    assert (Hi : tasks !! i = Some (Return page))
      by (by rewrite Eg, list_lookup_fmap, Hp).
    unfold tasks, starts in Hi.
    rewrite list_lookup_imap, list_lookup_fmap in Hi.
    rewrite lookup_seq_lt in Hi
      by (rewrite <- Hlen; by eapply lookup_lt_Some).
    cbn in Hi. by injection Hi.
  - unfold Py.slice_to. by destruct (Z.ltb_spec l 0); [lia|].
  - unfold Py.slice_to. destruct (Z.ltb_spec l 0); [lia|].
    rewrite length_take. lia.
Qed.

(** X13: every page task that [fetch_jobs] creates is for the filter of the
    call and starts inside the window asked for, a multiple of 10 from the
    offset and below the ceiling of 1000. *)
Theorem fetch_jobs_created_in_window filter offset limit order f start :
  (f, start) ∈ created (fetch_jobs session_get parse_jobs filter offset limit order) ->
  let l := match limit with
           | Some l => l
           | None => LINKEDIN_JOB_QUERY_LIMIT - offset
           end in
  f = filter
  /\ 0 <= offset <= start /\ start < offset + l <= 1000
  /\ (start - offset) mod 10 = 0.
Proof.
  intros H l.
  destruct (fetch_jobs_cases filter offset limit order)
    as [(Ho & Hl & Hsum & Heq)|[msg Hmsg]].
  2:{ rewrite Hmsg in H. by apply elem_of_nil in H. }
  fold l in Ho, Hl, Hsum, Heq. rewrite Heq, fetch_jobs_valid in H by done.
  cbn [created] in H. rewrite <- list_fmap_compose in H.
  apply list_elem_of_fmap in H as (i & [= -> ->] & Hi).
  apply elem_of_seq in Hi.
  pose proof (ceiling_div_least l 10 ltac:(lia)) as [_ Hc].
  assert (0 <= ceiling_div l 10) by (unfold ceiling_div; apply Z.div_pos; lia).
  split; [done|]. split; [lia|]. split; [lia|].
  replace (offset + Z.of_nat i * 10 - offset) with (Z.of_nat i * 10) by lia.
  apply Z.mod_mul. lia.
Qed.

(** X14: on valid arguments and whatever the order in which the pages
    finish, a page that fails fails the call: it raises the error of the
    first page to fail, which is the error of that page when no other page
    fails, and returns no list. *)
Theorem fetch_jobs_page_failure filter offset limit order (i : nat) e :
  0 <= offset -> 0 <= limit -> offset + limit <= 1000 ->
  let n := Z.to_nat (ceiling_div limit 10) in
  let page (k : nat) :=
    _fetch_jobs_page session_get parse_jobs k filter (offset + Z.of_nat k * 10) in
  order ≡ₚ seq 0 n ->
  (i < n)%nat -> page i = Raise e ->
  exists pre (j : nat) post e',
    order = pre ++ j :: post
    /\ (j < n)%nat /\ page j = Raise e'
    /\ (forall k : nat, k ∈ pre -> exists jobs, page k = Return jobs)
    /\ outcome (fetch_jobs session_get parse_jobs filter offset (Some limit) order)
       = Some (Raise e')
    /\ ((forall k : nat, (k < n)%nat -> k <> i -> exists jobs, page k = Return jobs) ->
        e' = e).
Proof.
  intros Ho Hl Hsum n page Hperm Hi He.
  rewrite fetch_jobs_valid by done. cbn [outcome]. fold n.
  set (starts := (fun i : nat => offset + Z.of_nat i * 10) <$> seq 0 n).
  set (tasks := imap (fun i start =>
                  _fetch_jobs_page session_get parse_jobs i filter start) starts).
  assert (Hlen : length tasks = n)
    by (unfold tasks, starts; by rewrite length_imap, length_fmap, length_seq).
  assert (Hlook : forall k : nat, (k < n)%nat -> tasks !! k = Some (page k)).
  { intros k Hk. unfold tasks, starts.
    rewrite list_lookup_imap, list_lookup_fmap, lookup_seq_lt by done.
    reflexivity. }
  assert (Hin : forall k : nat, k ∈ order -> (k < n)%nat).
  { intros k Hk. rewrite Hperm in Hk. apply elem_of_seq in Hk. lia. }
  rewrite gather_facts.gather_spec by (rewrite Hlen; exact Hperm).
  assert (Hiord : i ∈ order) by (rewrite Hperm; apply elem_of_seq; lia).
  assert (Hti : tasks !! i = Some (Raise e)) by (rewrite Hlook, He; done).
  destruct (gather_facts.first_failure_is_Some tasks order i e Hiord Hti)
    as [e' Hff].
  rewrite Hff.
  destruct (gather_facts.first_failure_Some tasks order e' Hff)
    as (pre & j & post & Hord & Hj & Hpre).
  assert (Hjn : (j < n)%nat).
  { apply Hin. rewrite Hord. apply elem_of_app. right. by left. }
  rewrite Hlook in Hj by done. injection Hj as Hj.
  exists pre, j, post, e'. repeat split; try done.
  - intros k Hk.
    assert (Hkn : (k < n)%nat).
    { apply Hin. rewrite Hord. apply elem_of_app. by left. }
    specialize (Hpre k Hk). rewrite Hlook in Hpre by done.
    destruct (page k) as [jobs|e0]; [by eexists|]. by destruct (Hpre e0).
  - intros Honly. destruct (decide (j = i)) as [->|Hji]; [congruence|].
    destruct (Honly j Hjn Hji) as [jobs Hjobs]. congruence.
Qed.

(** X15: [fetch_jobs_details] on no id returns the empty list at once and
    creates no task; on one id it is [fetch_job_details] with the result in
    a list. *)
Theorem fetch_jobs_details_small order :
  fetch_jobs_details session_get BeautifulSoup [] order
  = {| created := []; outcome := Some (Return []) |}
  /\ forall id,
       0%nat ∈ order ->
       outcome (fetch_jobs_details session_get BeautifulSoup [id] order)
       = Some (details ← fetch_job_details session_get BeautifulSoup id;
               Return [details]).
Proof.
  split; [reflexivity|]. intros id Hin.
  unfold fetch_jobs_details, fetch_job_details. cbn [outcome imap].
  set (c := _fetch_job_details session_get BeautifulSoup 0 id).
  unfold asyncio.gather.
  induction order as [|i rest IH]; [by apply elem_of_nil in Hin|].
  cbn [asyncio.gather_loop]. destruct i as [|i].
  - cbn. by destruct c.
  - cbn. apply IH. apply elem_of_cons in Hin as [|]; done.
Qed.

End MoreClientProperties.

(** ** The semaphore of the client *)

Lemma in_flight_app ps qs : in_flight (ps ++ qs) = (in_flight ps + in_flight qs)%nat.
Proof.
  induction ps as [|[| | |r] ps IH]; cbn; by rewrite ?IH.
Qed.

Lemma in_flight_insert ps (i : nat) p q :
  ps !! i = Some p ->
  (in_flight (<[i := q]> ps) + in_flight [p] = in_flight ps + in_flight [q])%nat.
Proof.
  revert i. induction ps as [|p' ps IH]; intros i; [done|].
  destruct i as [|i].
  - intros [= ->]. change (<[0%nat := q]> (p :: ps)) with (q :: ps).
    destruct p, q; cbn [in_flight]; lia.
  - intros H. change (<[S i := q]> (p' :: ps)) with (p' :: <[i := q]> ps).
    specialize (IH i H). destruct p'; cbn [in_flight] in *; lia.
Qed.

Lemma wake_first_Some ws ws' :
  wake_first ws = Some ws' -> woken ws' = S (woken ws).
Proof.
  revert ws'. induction ws as [|[t [|]] ws IH]; intros ws'; [done| |].
  - cbn. destruct (wake_first ws) as [ws1|]; [|done].
    intros [= <-]. cbn. by rewrite (IH ws1).
  - by intros [= <-].
Qed.

Lemma wake_first_None ws :
  wake_first ws = None -> woken ws = 0%nat -> ws = [].
Proof.
  destruct ws as [|[t [|]] ws]; [done| |]; cbn; [|done].
  by destruct (wake_first ws).
Qed.

Lemma woken_app ws vs : woken (ws ++ vs) = (woken ws + woken vs)%nat.
Proof.
  induction ws as [|[t [|]] ws IH]; cbn; by rewrite ?IH.
Qed.

Lemma woken_remove_waiter task ws :
  waiter_done task ws = Some true ->
  S (woken (remove_waiter task ws)) = woken ws.
Proof.
  induction ws as [|[t d] ws IH]; [done|]. cbn.
  destruct (t =? task)%nat.
  - by intros [= ->].
  - intros H. specialize (IH H). destruct d; cbn; lia.
Qed.

Lemma wake_up_next_invariant (v : Z) ws :
  0 <= v ->
  let s := _wake_up_next {| _value := v + 1; _waiters := ws |} in
  0 <= _value s
  /\ _value s + Z.of_nat (woken (_waiters s)) = v + 1 + Z.of_nat (woken ws)
  /\ (woken (_waiters s) = 0%nat -> _waiters s = []).
Proof.
  intros Hv. unfold _wake_up_next. cbn [_waiters _value].
  destruct (wake_first ws) as [ws'|] eqn:E; cbn [_waiters _value].
  - pose proof (wake_first_Some ws ws' E). repeat split; lia.
  - repeat split; try lia. by apply wake_first_None.
Qed.

Lemma loop_step_invariant limit c ev :
  semaphore_invariant limit c -> semaphore_invariant limit (loop_step c ev).
Proof.
  intros (Hv & Hsum & Hidle). destruct c as [[v ws] ps].
  cbn [_semaphore _value _waiters places] in *.
  destruct ev as [|i|i|i raised]; cbn [loop_step _semaphore _value _waiters places].
  - unfold semaphore_invariant. cbn. rewrite in_flight_app. cbn.
    repeat split; try done; lia.
  - destruct (ps !! i) as [[| | |r]|] eqn:Ei; try by repeat split.
    pose proof (in_flight_insert ps i Before Inside Ei) as Hin.
    pose proof (in_flight_insert ps i Before Waiting Ei) as Hwait.
    unfold acquire_enter, locked. cbn [_value _waiters].
    destruct (Z.eqb_spec v 0) as [->|Hne]; cbn [orb].
    + unfold semaphore_invariant. cbn. rewrite woken_app. cbn in *.
      repeat split; try done; lia.
    + destruct ws as [|w ws].
      * unfold semaphore_invariant. cbn in *. repeat split; try done; lia.
      * unfold semaphore_invariant.
        cbn [_semaphore _value _waiters places].
        rewrite woken_app. cbn [woken in_flight] in *.
        split; [done|]. split; [lia|].
        intros Hpos Hw. rewrite Nat.add_0_r in Hw. by specialize (Hidle Hpos Hw).
  - destruct (ps !! i) as [[| | |r]|] eqn:Ei; try by repeat split.
    destruct (waiter_done i ws) as [[|]|] eqn:Ed; try by repeat split.
    pose proof (in_flight_insert ps i Waiting Inside Ei) as Hin.
    pose proof (woken_remove_waiter i ws Ed) as Hrem.
    unfold acquire_resume. cbn [_value _waiters].
    destruct (Z.ltb_spec 0 v) as [Hpos|Hle].
    + destruct (wake_up_next_invariant (v - 1) (remove_waiter i ws) ltac:(lia))
        as (H1 & H2 & H3).
      replace (v - 1 + 1) with v in * by lia.
      unfold semaphore_invariant. cbn [_semaphore places].
      cbn [in_flight] in *. repeat split; try done; lia.
    + unfold semaphore_invariant. cbn [_semaphore _value _waiters places].
      cbn [in_flight] in *. repeat split; try done; lia.
  - destruct (ps !! i) as [[| | |r]|] eqn:Ei; try by repeat split.
    pose proof (in_flight_insert ps i Inside (After raised) Ei) as Hin.
    unfold release. cbn [_value _waiters].
    destruct (wake_up_next_invariant v ws Hv) as (H1 & H2 & H3).
    unfold semaphore_invariant. cbn [_semaphore places].
    cbn [in_flight] in *. repeat split; try done; lia.
Qed.

Lemma loop_run_invariant limit events : forall c,
  semaphore_invariant limit c -> semaphore_invariant limit (loop_run c events).
Proof.
  induction events as [|ev events IH]; intros c Hc; [done|].
  apply IH. by apply loop_step_invariant.
Qed.

(** X16: a client cannot be made with a negative [max_concurrent_requests].
    Otherwise, whatever tasks are created and however the event loop runs
    them, the value of the semaphore is never negative, and the value, the
    calls of [get] in flight and the waiters that were handed a permit and
    have not gone on yet add up to [max_concurrent_requests]: never more
    than that many calls are in flight, and a permit comes back when [get]
    raises as when it returns.  No permit stays idle while a task waits:
    when the value is positive and no waiter holds a permit, nobody
    waits. *)
Theorem semaphore_bounds_in_flight (max_concurrent_requests : Z) :
  (max_concurrent_requests < 0 ->
   LinkedInClient_init max_concurrent_requests
   = Raise (ValueError "Semaphore initial value must be >= 0"))
  /\ (0 <= max_concurrent_requests ->
      exists c0,
        LinkedInClient_init max_concurrent_requests = Return c0
        /\ forall events,
             let c := loop_run c0 events in
             let semaphore := _semaphore c in
             0 <= _value semaphore
             /\ _value semaphore + Z.of_nat (in_flight (places c))
                + Z.of_nat (woken (_waiters semaphore))
                = max_concurrent_requests
             /\ Z.of_nat (in_flight (places c)) <= max_concurrent_requests
             /\ (0 < _value semaphore -> woken (_waiters semaphore) = 0%nat ->
                 _waiters semaphore = [])).
Proof.
  unfold LinkedInClient_init, Semaphore_init. split.
  - intros H. apply Z.ltb_lt in H. by rewrite H.
  - intros H. apply Z.ltb_ge in H. rewrite H. cbn.
    eexists. split; [reflexivity|]. intros events. cbv zeta.
    destruct (loop_run_invariant max_concurrent_requests events
                {| _semaphore := {| _value := max_concurrent_requests;
                                    _waiters := [] |};
                   places := [] |}) as (Hv & Hsum & Hidle).
    { apply Z.ltb_ge in H. unfold semaphore_invariant. cbn.
      repeat split; try done; lia. }
    repeat split; try done. lia.
Qed.

(** * The further theorems on the examples *)

Lemma _parse_job_view_li :
  _parse_job strptime_0517 view_li = Return (job_of_url view_url).
Proof.
  apply _parse_job_Return. cbn. repeat split; try done.
  by exists "2024-05-17".
Defined.

Lemma _parse_job_untitled_li :
  _parse_job strptime_0517 untitled_li
  = Raise (ValueError "Could not find job title").
Proof.
  destruct (_parse_job_Raise strptime_0517 untitled_li) as [_ H].
  by apply (H view_url).
Defined.

Lemma parse_jobs_listing_of_two :
  parse_jobs listing_of_two strptime_0517 ""
  = Return [job_of_url view_url; job_of_url view_url].
Proof.
  apply parse_jobs_Return. repeat constructor; by exists view_li.
Defined.

Lemma parse_jobs_listing_with_untitled :
  parse_jobs listing_with_untitled strptime_0517 ""
  = Raise (ValueError "Could not find job title").
Proof.
  apply (parse_jobs_first_failure listing_with_untitled strptime_0517 ""
           [Li view_li] (Li untitled_li) [Li view_li] [job_of_url view_url]).
  - reflexivity.
  - repeat constructor. by exists view_li.
  - reflexivity.
Defined.

Lemma parse_job_details_description_unknown_seniority :
  exists contents pre post,
    find_markup unknown_seniority = Some contents
    /\ contents = pre +:+ "<p>We are hiring.</p>" +:+ post
    /\ all_space pre = true /\ all_space post = true.
Proof.
  destruct (parse_job_details_description (fun _ => unknown_seniority) ""
              {| description := "<p>We are hiring.</p>";
                 employment_type := EmploymentType.CONTRACT;
                 experience_level := None;
                 applicant_count := 200 |})
    as (contents & pre & post & H1 & H2 & H3 & H4 & _); [reflexivity|].
  by exists contents, pre, post.
Defined.

Lemma applicant_count_over_200 :
  applicant_count_block unknown_seniority = Return 200
  /\ applicant_count_block (long_count 4301)
     = Raise (ValueError (Py.int_limit_message 4301)).
Proof.
  split.
  - destruct (applicant_count_first_integer unknown_seniority) as (_ & _ & H).
    destruct (H "Over " "200" " applicants") as (n & Hn & _ & Hc);
      [reflexivity | reflexivity | discriminate | reflexivity
      | by intros c r [= <- _] |].
    rewrite Hc. vm_compute in Hn. congruence.
  - destruct (applicant_count_first_integer (long_count 4301)) as (_ & _ & H).
    assert (Hlen : String.length (nines 4301) = 4301%nat)
      by (vm_compute; reflexivity).
    specialize (H "" (nines 4301) " applicants").
    rewrite Hlen in H. apply H.
    + reflexivity.
    + reflexivity.
    + discriminate.
    + vm_compute; reflexivity.
    + by intros c r [= <- _].
Defined.

Lemma parse_job_details_Raise_two_employment_types :
  (exists msg,
     ValueError "Could not parse employment type" = ValueError msg
     /\ msg ∈ parse_job_details_messages)
  \/ (exists txt ds,
        find_num_applicants two_employment_types = Some txt
        /\ first_digits txt = Some ds
        /\ Py.int_max_str_digits < Z.of_nat (String.length ds)
        /\ ValueError "Could not parse employment type"
           = ValueError (Py.int_limit_message (String.length ds))).
Proof.
  apply (parse_job_details_Raise (fun _ => two_employment_types) "").
  reflexivity.
Defined.

Lemma request_proxy_rotation_ABCA :
  proxies_of
    (request curl_cffi_ok three_503_then_200 three_proxies (Some "X")).1.2
  = [Some "A"; Some "B"; Some "C"; Some "A"]
  /\ cycle_pos
       (_proxy_cycle
          (request curl_cffi_ok three_503_then_200 three_proxies (Some "X")).1.1)
     = 4%nat.
Proof.
  destruct (request_proxy_rotation curl_cffi_ok three_503_then_200
              three_proxies (Some "X")) as (_ & Hp & Hrot).
  split; [|exact Hp]. rewrite Hrot; [reflexivity|discriminate|].
  repeat constructor; discriminate.
Defined.

Lemma request_proxy_rotation_shared_AB :
  proxies_of (request curl_cffi_ok always_404 three_proxies None).1.2
  ++ proxies_of
       (request curl_cffi_ok always_404
          (request curl_cffi_ok always_404 three_proxies None).1.1 None).1.2
  = [Some "A"; Some "B"].
Proof.
  rewrite (request_proxy_rotation_shared curl_cffi_ok always_404 always_404
             three_proxies None None); [reflexivity|discriminate|].
  repeat constructor; discriminate.
Defined.

Lemma request_without_proxies_keeps_X :
  proxies_of
    (request curl_cffi_ok three_503_then_200 no_proxies (Some "X")).1.2
  = [Some "X"; Some "X"; Some "X"; Some "X"].
Proof.
  change no_proxies with (ResilientAsyncSession_init None).
  rewrite (request_without_proxies curl_cffi_ok three_503_then_200 None (Some "X"));
    [reflexivity|by left].
Defined.

Lemma fetch_jobs_Return_25 :
  exists pages : list (list Job.t),
    length pages = 3%nat
    /\ take 25 (concat (replicate 3 (replicate 10 (job_of_url search_url))))
       = take 25 (concat pages).
Proof.
  destruct (fetch_jobs_Return echo_session_get ten_jobs JobFilter_default 5
              (Some 25) [2; 0; 1]%nat
              (take 25 (concat (replicate 3 (replicate 10 (job_of_url search_url))))))
    as (_ & _ & _ & pages & Hlen & _ & Hjobs & _); [vm_compute; reflexivity|].
  by exists pages.
Defined.

Lemma fetch_jobs_created_in_window_15 :
  0 <= 5 <= 15 /\ 15 < 5 + 25 <= 1000 /\ (15 - 5) mod 10 = 0.
Proof.
  destruct (fetch_jobs_created_in_window echo_session_get ten_jobs
              JobFilter_default 5 (Some 25) [2; 0; 1]%nat JobFilter_default 15)
    as (_ & H1 & H2 & H3); [|done].
  vm_compute. apply list_elem_of_further, list_elem_of_here.
Defined.

Lemma fetch_jobs_page_failure_15 :
  outcome (fetch_jobs fails_at_15 ten_jobs JobFilter_default 5 (Some 25)
             [2; 0; 1]%nat)
  = Some (Raise (RequestsError None)).
Proof.
  destruct (fetch_jobs_page_failure fails_at_15 ten_jobs JobFilter_default 5 25
              [2; 0; 1]%nat 1%nat (RequestsError None))
    as (pre & j & post & e' & _ & _ & _ & _ & Hout & Honly);
    [lia|lia|lia|vm_compute; solve_Permutation|vm_compute; lia|
     vm_compute; reflexivity|].
  rewrite Hout. do 2 f_equal. apply Honly.
  intros k Hk Hne. destruct k as [|[|[|k]]]; [| done | |vm_compute in Hk; lia];
    eexists; vm_compute; reflexivity.
Defined.

Lemma fetch_jobs_details_small_one :
  outcome (fetch_jobs_details echo_session_get detail_soup ["1"] [0%nat])
  = Some (details ← fetch_job_details echo_session_get detail_soup "1";
          Return [details]).
Proof.
  destruct (fetch_jobs_details_small echo_session_get detail_soup [0%nat])
    as [_ H].
  apply H. apply list_elem_of_here.
Defined.

(** With one permit and two tasks, the permit of the task that left is with
    the second task, which waits to go on: the value is 0 and no call is in
    flight. *)
Lemma semaphore_bounds_in_flight_handover :
  exists c0,
    LinkedInClient_init 1 = Return c0
    /\ let c := loop_run c0 two_tasks_one_permit in
       _value (_semaphore c) + Z.of_nat (in_flight (places c))
       + Z.of_nat (woken (_waiters (_semaphore c))) = 1
       /\ _value (_semaphore c) = 0
       /\ in_flight (places c) = 0%nat
       /\ _waiters (_semaphore c) = [(1%nat, true)]
       /\ in_flight (places (loop_step c (Resume 1))) = 1%nat.
Proof.
  destruct (semaphore_bounds_in_flight 1) as [_ H].
  destruct (H ltac:(lia)) as (c0 & Hc0 & Hrun).
  exists c0. split; [exact Hc0|].
  destruct (Hrun two_tasks_one_permit) as (_ & Hsum & _).
  split; [exact Hsum|].
  injection Hc0 as <-. repeat split; reflexivity.
Defined.
